(** * MLEstimator: maximum-likelihood unigram estimator with epsilon smoothing

    Shallow embedding of [unit1_CP/src_potential_fix/MLEstimator.py].

    The Python class is a stateful object with three methods ([fit],
    [predict_proba], [score]) that may raise.  It is embedded as a record
    for the instance attributes and a state-and-exception monad over that
    record, so that the attribute writes a method made before it raised
    stay visible, as they do in Python.

    Numbers.  [count_V] is a [numpy.zeros] array, so the quotient
    [count_V[index] / total_count] is a numpy float64 division: dividing by
    zero does not raise, it yields [inf] or [nan].  The embedding keeps the
    four kinds of float64 value (finite, [+inf], [-inf], [nan]) and computes
    exactly on the finite ones: finite values are rationals, logarithms are
    reals.  Rounding is left out of [predict_proba] and [score]; what is
    stated on them is the expression a branch evaluates, the exceptions and
    the state, or a bound that rounding keeps.

    Rounding.  [predict_proba_b64] and [score_b64] evaluate the quotients and
    products of [predict_proba] in IEEE binary64, on Rocq's primitive
    floats, where a product of two positive doubles can underflow to zero. *)

From Stdlib Require Import QArith Reals Qreals Lra Lqa Lia Floats.
From stdpp Require Import base list list_numbers strings.

Local Open Scope string_scope.

(** ** Exceptions and results *)

Inductive exn : Type :=
  | KeyError (msg : string)
  | TypeError
  | IndexError
  | ZeroDivisionError.

Inductive result (A : Type) : Type :=
  | Ok (a : A)
  | Raise (e : exn).
Arguments Ok {A} a.
Arguments Raise {A} e.

(** ** Float values: finite, infinite or not-a-number *)

Module Np.
Local Open Scope Q_scope.

Inductive ext (A : Type) : Type :=
  | Fin (x : A)
  | PInf
  | NInf
  | NaN.
Arguments Fin {A} x.
Arguments PInf {A}.
Arguments NInf {A}.
Arguments NaN {A}.

(** A float whose finite values are exact rationals. *)
Definition float : Type := ext Q.
(** A float whose finite values are exact reals (results of [np.log]). *)
Definition real : Type := ext R.

Definition of_nat (n : nat) : float := Fin (inject_Z (Z.of_nat n)).

Definition Qpos_b (q : Q) : bool := negb (Qle_bool q 0).
Definition Qneg_b (q : Q) : bool := negb (Qle_bool 0 q).

(** Sign of a float: [Some true] positive, [Some false] negative,
    [None] for zero and for [nan]. *)
Definition sign (a : float) : option bool :=
  match a with
  | Fin q => if Qpos_b q then Some true else if Qneg_b q then Some false else None
  | PInf => Some true
  | NInf => Some false
  | NaN => None
  end.

Definition inf_of (positive : bool) : float := if positive then PInf else NInf.

Definition sub (a b : float) : float :=
  match a, b with
  | NaN, _ | _, NaN => NaN
  | Fin x, Fin y => Fin (x - y)
  | Fin _, PInf => NInf
  | Fin _, NInf => PInf
  | PInf, PInf => NaN
  | PInf, _ => PInf
  | NInf, NInf => NaN
  | NInf, _ => NInf
  end.

Definition add (a b : float) : float :=
  match a, b with
  | NaN, _ | _, NaN => NaN
  | Fin x, Fin y => Fin (x + y)
  | PInf, NInf | NInf, PInf => NaN
  | PInf, _ | _, PInf => PInf
  | NInf, _ | _, NInf => NInf
  end.

Definition mul (a b : float) : float :=
  match a, b with
  | Fin x, Fin y => Fin (x * y)
  | _, _ =>
      match sign a, sign b with
      | Some s, Some t => inf_of (Bool.eqb s t)
      | _, _ => NaN
      end
  end.

(** Division.  The only divisor that can be zero in the estimator is an
    integer ([total_count]), so a zero divisor is [+0]: a positive
    numerator gives [+inf], a negative one [-inf], and [0 / 0] is [nan]. *)
Definition div (a b : float) : float :=
  match a, b with
  | NaN, _ | _, NaN => NaN
  | Fin x, Fin y =>
      if Qeq_bool y 0
      then match sign a with Some s => inf_of s | None => NaN end
      else Fin (x / y)
  | Fin _, _ => Fin 0
  | _, Fin y => match sign a with
                | Some s => inf_of (Bool.eqb s (negb (Qneg_b y)))
                | None => NaN
                end
  | _, _ => NaN
  end.

(** [a > b]; every comparison with [nan] is false. *)
Definition gtb (a b : float) : bool :=
  match a, b with
  | NaN, _ | _, NaN => false
  | Fin x, Fin y => negb (Qle_bool x y)
  | PInf, PInf => false
  | PInf, _ => true
  | NInf, _ => false
  | Fin _, NInf => true
  | Fin _, PInf => false
  end.

(** [np.log]: natural logarithm, [-inf] at zero, [nan] on negatives. *)
Definition log (a : float) : real :=
  match a with
  | Fin q => if Qpos_b q then Fin (ln (Q2R q))
             else if Qneg_b q then NaN else NInf
  | PInf => PInf
  | NInf => NaN
  | NaN => NaN
  end.

Definition radd (a b : real) : real :=
  match a, b with
  | NaN, _ | _, NaN => NaN
  | Fin x, Fin y => Fin (x + y)%R
  | PInf, NInf | NInf, PInf => NaN
  | PInf, _ | _, PInf => PInf
  | NInf, _ | _, NInf => NInf
  end.

(** Division of a log-probability total by a positive length. *)
Definition rdiv_len (a : real) (n : nat) : real :=
  match a with
  | Fin x => Fin (x / INR n)%R
  | other => other
  end.

End Np.

(** ** The Vocabulary collaborator *)

(** Modelled from the spec: the class [Vocabulary] imported by
    MLEstimator.py is not part of the sources.  The spec gives it as an
    ordered set of V unique words, each mapped to a unique integer id in
    [0, V), with a fixed [size] and a lookup [get_word_id] that fails with
    the message [Word {word} not in the vocabulary] on an absent word. *)
Record Vocabulary : Type := { vocab_words : list string }.

Definition size (v : Vocabulary) : nat := length (vocab_words v).

Fixpoint index_of (word : string) (ws : list string) : option nat :=
  match ws with
  | [] => None
  | w :: ws' => if String.eqb w word then Some 0%nat
                else S <$> index_of word ws'
  end.

Definition not_in_vocabulary (word : string) : exn :=
  KeyError ("Word " ++ word ++ " not in the vocabulary").

(** Modelled from the spec: [Vocabulary.get_word_id]. *)
Definition get_word_id (v : Vocabulary) (word : string) : result nat :=
  match index_of word (vocab_words v) with
  | Some i => Ok i
  | None => Raise (not_in_vocabulary word)
  end.

(** The words of a vocabulary are pairwise distinct. *)
Definition vocab_ok (v : Vocabulary) : Prop := NoDup (vocab_words v).

(** ** The estimator object *)

Record MLEstimator : Type := {
  vocab : Vocabulary;
  epsilon_unseen_proba : Np.float;
  total_count : nat;
  unseen_count : nat;
  (** [None] until the first [fit]; afterwards the array of counts.  The
      float64 entries only ever hold 0, 1, 2, ..., kept here as [nat]. *)
  count_V : option (list nat)
}.

(** [MLEstimator.__init__] *)
Definition init (vocab0 : Vocabulary) (epsilon : Np.float) : MLEstimator :=
  {| vocab := vocab0;
     epsilon_unseen_proba := epsilon;
     total_count := 0;
     unseen_count := 0;
     count_V := None |}.

(** The default of the keyword argument, [0.000001]. *)
Definition default_epsilon : Np.float := Np.Fin (1 # 1000000)%Q.

(** ** Methods as computations over [self] *)

Definition M (A : Type) : Type := MLEstimator -> result A * MLEstimator.

Definition ret {A} (a : A) : M A := fun self => (Ok a, self).

Definition bind {A B} (m : M A) (k : A -> M B) : M B :=
  fun self =>
    match m self with
    | (Ok a, self') => k a self'
    | (Raise e, self') => (Raise e, self')
    end.

Definition raise {A} (e : exn) : M A := fun self => (Raise e, self).

Definition lift {A} (r : result A) : M A := fun self => (r, self).

Definition gets {A} (f : MLEstimator -> A) : M A := fun self => (Ok (f self), self).

Definition modify (f : MLEstimator -> MLEstimator) : M unit :=
  fun self => (Ok tt, f self).

Declare Scope est_scope.
Delimit Scope est_scope with est.
Notation "x <- m ;; k" := (bind m (fun x => k))
  (at level 100, m at next level, right associativity) : est_scope.
Notation "m ;; k" := (bind m (fun _ => k))
  (at level 100, right associativity) : est_scope.
Local Open Scope est_scope.

(** [for x in xs: body x] *)
Fixpoint for_each {A} (xs : list A) (body : A -> M unit) : M unit :=
  match xs with
  | [] => ret tt
  | x :: xs' => body x ;; for_each xs' body
  end.

Definition set_count_V (c : option (list nat)) (self : MLEstimator) : MLEstimator :=
  {| vocab := vocab self;
     epsilon_unseen_proba := epsilon_unseen_proba self;
     total_count := total_count self;
     unseen_count := unseen_count self;
     count_V := c |}.

Definition set_total_count (n : nat) (self : MLEstimator) : MLEstimator :=
  {| vocab := vocab self;
     epsilon_unseen_proba := epsilon_unseen_proba self;
     total_count := n;
     unseen_count := unseen_count self;
     count_V := count_V self |}.

Definition set_unseen_count (n : nat) (self : MLEstimator) : MLEstimator :=
  {| vocab := vocab self;
     epsilon_unseen_proba := epsilon_unseen_proba self;
     total_count := total_count self;
     unseen_count := n;
     count_V := count_V self |}.

(** Reading [self.count_V] where an array is needed: subscripting or
    iterating [None] is a [TypeError]. *)
Definition the_count_V : M (list nat) :=
  fun self =>
    match count_V self with
    | Some c => (Ok c, self)
    | None => (Raise TypeError, self)
    end.

(** [self.count_V[index]]; numpy raises [IndexError] out of range. *)
Definition count_V_at (index : nat) : M nat :=
  c <- the_count_V ;;
  match c !! index with
  | Some k => ret k
  | None => raise IndexError
  end.

(** [self.vocab.get_word_id(word)] *)
Definition vocab_get_word_id (word : string) : M nat :=
  fun self => lift (get_word_id (vocab self) word) self.

(** [self.unseen_count += 1] *)
Definition unseen_count_incr : M unit :=
  fun self => modify (set_unseen_count (S (unseen_count self))) self.

(** [self.count_V[index] += 1] *)
Definition count_V_incr (index : nat) : M unit :=
  k <- count_V_at index ;;
  c <- the_count_V ;;
  modify (set_count_V (Some (<[index := S k]> c))).

(** [MLEstimator.fit] *)
Definition fit (word_list : list string) : M unit :=
  V <- gets (fun self => size (vocab self)) ;;
  modify (set_count_V (Some (replicate V 0%nat))) ;;
  modify (set_total_count 0) ;;
  modify (set_unseen_count 0) ;;
  modify (set_total_count (length word_list)) ;;
  for_each word_list (fun word =>
    index <- vocab_get_word_id word ;;
    count_V_incr index) ;;
  c <- the_count_V ;;
  for_each c (fun prob =>
    if Nat.eqb prob 0
    then unseen_count_incr
    else ret tt).

(** [MLEstimator.predict_proba].  The quotient [ml] is a numpy division
    and cannot raise; [1 / self.unseen_count] is a Python division, and the
    test before it keeps its divisor positive. *)
Definition predict_proba (word : string) : M Np.float :=
  index <- vocab_get_word_id word ;;
  k <- count_V_at index ;;
  n <- gets total_count ;;
  epsilon <- gets epsilon_unseen_proba ;;
  u <- gets unseen_count ;;
  let ml := Np.div (Np.of_nat k) (Np.of_nat n) in
  if Np.gtb ml (Np.of_nat 0)
  then ret (Np.mul (Np.sub (Np.of_nat 1) epsilon) ml)
  else if Nat.ltb 0 u
  then ret (Np.mul epsilon (Np.div (Np.of_nat 1) (Np.of_nat u)))
  else ret (Np.of_nat 0).

(** The loop of [score]: [total_log_proba += np.log(self.predict_proba(word))]. *)
Fixpoint score_loop (word_list : list string) (total_log_proba : Np.real) : M Np.real :=
  match word_list with
  | [] => ret total_log_proba
  | word :: rest =>
      p <- predict_proba word ;;
      score_loop rest (Np.radd total_log_proba (Np.log p))
  end.

(** [MLEstimator.score].  On an empty list the total is still the Python
    float [0.0], and [0.0 / 0] raises; otherwise the total is a numpy
    scalar divided by a positive length. *)
Definition score (word_list : list string) : M Np.real :=
  total_log_proba <- score_loop word_list (Np.Fin 0%R) ;;
  match length word_list with
  | O => raise ZeroDivisionError
  | S _ => ret (Np.rdiv_len total_log_proba (length word_list))
  end.

(** Outcome and final state of running a method. *)
Definition outcome {A} (m : M A) (self : MLEstimator) : result A := fst (m self).
Definition state_after {A} (m : M A) (self : MLEstimator) : MLEstimator := snd (m self).

(** ** The arithmetic of [predict_proba] in binary64 *)

(** A count or a length as a double; the conversion is exact below 2^53. *)
Definition b64_of_count (n : nat) : float :=
  PrimFloat.of_uint63 (Uint63.of_Z (Z.of_nat n)).

(** The exact value of a double. *)
Definition b64_value (x : float) : Np.float :=
  match Prim2SF x with
  | S754_zero _ => Np.Fin 0%Q
  | S754_infinity false => Np.PInf
  | S754_infinity true => Np.NInf
  | S754_nan => Np.NaN
  | S754_finite s m e =>
      Np.Fin ((if s then -1 else 1) * inject_Z (Zpos m) * Qpower 2 e)%Q
  end.

(** [MLEstimator.predict_proba], every quotient, difference and product
    rounded as binary64 rounds it.  [epsilon] is the double held in
    [self.epsilon_unseen_proba]; the counts are read from [self]. *)
Definition predict_proba_b64 (epsilon : float) (word : string) : M float :=
  index <- vocab_get_word_id word ;;
  k <- count_V_at index ;;
  n <- gets total_count ;;
  u <- gets unseen_count ;;
  let ml := (b64_of_count k / b64_of_count n)%float in
  if (0 <? ml)%float
  then ret ((1 - epsilon) * ml)%float
  else if Nat.ltb 0 u
  then ret (epsilon * (1 / b64_of_count u))%float
  else ret 0%float.

(** The loop of [score] over the rounded probabilities.  The logarithm
    and the running total are taken on the exact value of each double; the
    logarithm of a zero is [-inf] with or without rounding. *)
Fixpoint score_loop_b64 (epsilon : float) (word_list : list string)
    (total_log_proba : Np.real) : M Np.real :=
  match word_list with
  | [] => ret total_log_proba
  | word :: rest =>
      p <- predict_proba_b64 epsilon word ;;
      score_loop_b64 epsilon rest
        (Np.radd total_log_proba (Np.log (b64_value p)))
  end.

(** [MLEstimator.score] over the rounded probabilities. *)
Definition score_b64 (epsilon : float) (word_list : list string) : M Np.real :=
  total_log_proba <- score_loop_b64 epsilon word_list (Np.Fin 0%R) ;;
  match length word_list with
  | O => raise ZeroDivisionError
  | S _ => ret (Np.rdiv_len total_log_proba (length word_list))
  end.

(** The smallest positive double, 2^-1074 (Python prints it [5e-324]). *)
Definition b64_min_positive : float := 0x1p-1074%float.

(** ** Quantities the properties are stated with *)

(** Number of times [word] occurs in a word list. *)
Fixpoint occurrences (word : string) (word_list : list string) : nat :=
  match word_list with
  | [] => 0
  | w :: rest => (if String.eqb w word then 1 else 0) + occurrences word rest
  end.

(** Number of zero entries of an array of counts. *)
Fixpoint count_zeros (c : list nat) : nat :=
  match c with
  | [] => 0
  | k :: rest => (if Nat.eqb k 0 then 1 else 0) + count_zeros rest
  end.

(** The branch of the [if / elif / else] of [predict_proba] that produces
    the returned value. *)
Inductive branch : Type :=
  | Observed      (* ml > 0 *)
  | Unobserved    (* elif self.unseen_count > 0 *)
  | Fallback.     (* else *)

(** The tests of [predict_proba], without the arithmetic of the branches. *)
Definition branch_taken (word : string) : M branch :=
  index <- vocab_get_word_id word ;;
  k <- count_V_at index ;;
  n <- gets total_count ;;
  u <- gets unseen_count ;;
  let ml := Np.div (Np.of_nat k) (Np.of_nat n) in
  if Np.gtb ml (Np.of_nat 0) then ret Observed
  else if Nat.ltb 0 u then ret Unobserved
  else ret Fallback.

(** [sum(self.predict_proba(w) for w in words)], added left to right. *)
Fixpoint sum_proba (words : list string) (acc : Np.float) : M Np.float :=
  match words with
  | [] => ret acc
  | w :: rest => p <- predict_proba w ;; sum_proba rest (Np.add acc p)
  end.

(** Total probability mass over the vocabulary. *)
Definition proba_mass : M Np.float :=
  fun self => sum_proba (vocab_words (vocab self)) (Np.of_nat 0) self.

(** ** Closed form of the state a successful [fit] leaves *)

(** One step of the counting loop on the array alone. *)
Definition bump (index : nat) (c : list nat) : list nat :=
  match c !! index with
  | Some k => <[index := S k]> c
  | None => c
  end.

(** The counting loop on the array alone, for words of the vocabulary. *)
Fixpoint tally (ws : list string) (word_list : list string) (c : list nat) : list nat :=
  match word_list with
  | [] => c
  | w :: rest =>
      match index_of w ws with
      | Some i => tally ws rest (bump i c)
      | None => c
      end
  end.

Definition counts_of (v : Vocabulary) (word_list : list string) : list nat :=
  tally (vocab_words v) word_list (replicate (size v) 0%nat).

Definition fitted (v : Vocabulary) (epsilon : Np.float) (word_list : list string)
  : MLEstimator :=
  {| vocab := v;
     epsilon_unseen_proba := epsilon;
     total_count := length word_list;
     unseen_count := count_zeros (counts_of v word_list);
     count_V := Some (counts_of v word_list) |}.

(** The value [predict_proba] computes from the count [k] of the word,
    [total_count = n] and [unseen_count = u]. *)
Definition proba_of (epsilon : Np.float) (k n u : nat) : Np.float :=
  let ml := Np.div (Np.of_nat k) (Np.of_nat n) in
  if Np.gtb ml (Np.of_nat 0)
  then Np.mul (Np.sub (Np.of_nat 1) epsilon) ml
  else if Nat.ltb 0 u
  then Np.mul epsilon (Np.div (Np.of_nat 1) (Np.of_nat u))
  else Np.of_nat 0.

(** The branch that value comes from. *)
Definition branch_of (k n u : nat) : branch :=
  if Np.gtb (Np.div (Np.of_nat k) (Np.of_nat n)) (Np.of_nat 0) then Observed
  else if Nat.ltb 0 u then Unobserved
  else Fallback.

(** The value each branch returns. *)
Definition branch_value (epsilon : Np.float) (k n u : nat) (b : branch) : Np.float :=
  match b with
  | Observed =>
      Np.mul (Np.sub (Np.of_nat 1) epsilon) (Np.div (Np.of_nat k) (Np.of_nat n))
  | Unobserved => Np.mul epsilon (Np.div (Np.of_nat 1) (Np.of_nat u))
  | Fallback => Np.of_nat 0
  end.

(** [proba_of] on a finite epsilon [e] and a positive [n], as a rational. *)
Definition mass_term (e : Q) (n u k : nat) : Q :=
  match k with
  | O => if Nat.ltb 0 u then e * (1 / inject_Z (Z.of_nat u)) else 0
  | S _ => (1 - e) * (inject_Z (Z.of_nat k) / inject_Z (Z.of_nat n))
  end%Q.

(** Sum of a list of rationals. *)
Definition Qsum (qs : list Q) : Q := foldr Qplus 0%Q qs.

(** Every word of the list is a word of the vocabulary. *)
Definition all_known (v : Vocabulary) (word_list : list string) : Prop :=
  Forall (fun w => w ∈ vocab_words v) word_list.

(** The two estimators have the same vocabulary and the same epsilon. *)
Definition same_config (self self' : MLEstimator) : Prop :=
  vocab self' = vocab self
  /\ epsilon_unseen_proba self' = epsilon_unseen_proba self.

(** Number of words of the list whose vocabulary id is [i]. *)
Definition hits (ws : list string) (i : nat) (word_list : list string) : nat :=
  length (filter (fun w => index_of w ws = Some i) word_list).

(** The accumulation of [score] over the values [predict_proba] returns. *)
Definition log_total (acc : Np.real) (ps : list Np.float) : Np.real :=
  foldl (fun total p => Np.radd total (Np.log p)) acc ps.

(** The value of [predict_proba] on a vocabulary word [w] once [self] has
    been fitted on [L]. *)
Definition fitted_proba (self : MLEstimator) (L : list string) (w : string)
  : Np.float :=
  proba_of (epsilon_unseen_proba self) (occurrences w L) (length L)
           (count_zeros (counts_of (vocab self) L)).

(** A log-probability that is [-inf] or a finite value at most 0. *)
Definition nonpositive (v : Np.real) : Prop :=
  match v with
  | Np.Fin r => (r <= 0)%R
  | Np.NInf => True
  | Np.PInf | Np.NaN => False
  end.

(** ** The example of the class docstring *)

Definition dino_words : list string :=
  ["dinosaur"; "trex"; "dinosaur"; "stegosaurus"; "known_unseen"].
Definition dino_vocab : Vocabulary :=
  {| vocab_words := ["dinosaur"; "trex"; "stegosaurus"; "known_unseen"] |}.
Definition dino_mle : MLEstimator :=
  state_after (fit ["dinosaur"; "trex"; "dinosaur"; "stegosaurus"])
              (init dino_vocab (Np.Fin (1 # 10)%Q)).

(** * Properties *)

(** ** The docstring example, evaluated *)

Example dino_state :
  count_V dino_mle = Some [2; 1; 1; 0]%nat /\
  total_count dino_mle = 4%nat /\ unseen_count dino_mle = 1%nat.
Proof. vm_compute. auto. Qed.

Example dino_dinosaur :
  exists p : Q,
    outcome (predict_proba "dinosaur") dino_mle = Ok (Np.Fin p)
    /\ (p == 45 # 100)%Q.
Proof. eexists. split; reflexivity. Qed.

Example dino_known_unseen :
  exists p : Q,
    outcome (predict_proba "known_unseen") dino_mle = Ok (Np.Fin p)
    /\ (p == 1 # 10)%Q.
Proof. eexists. split; reflexivity. Qed.

Example dino_unknown_unseen :
  outcome (predict_proba "UNKNOWN_unseen") dino_mle
  = Raise (KeyError "Word UNKNOWN_unseen not in the vocabulary").
Proof. reflexivity. Qed.

(** ** The vocabulary lookup *)

Lemma index_of_Some word ws i :
  index_of word ws = Some i -> ws !! i = Some word.
Proof.
  revert i. induction ws as [|w ws IH]; intros i; simpl; [discriminate|].
  destruct (String.eqb_spec w word) as [->|Hne].
  - intros [= <-]. reflexivity.
  - destruct (index_of word ws) as [j|] eqn:Hj; simpl; [|discriminate].
    intros [= <-]. simpl. apply IH. reflexivity.
Qed.

Lemma index_of_lt word ws i : index_of word ws = Some i -> i < length ws.
Proof. intros H. apply index_of_Some in H. eapply lookup_lt_Some, H. Qed.

Lemma index_of_None word ws : index_of word ws = None <-> word ∉ ws.
Proof.
  induction ws as [|w ws IH]; simpl.
  - split; [intros _; apply not_elem_of_nil | reflexivity].
  - rewrite not_elem_of_cons.
    destruct (String.eqb_spec w word) as [->|Hne].
    + split; [discriminate | intros [[] _]; reflexivity].
    + destruct (index_of word ws); simpl.
      * split; [discriminate|]. intros [_ H]. apply IH in H. discriminate.
      * split; [|reflexivity]. intros _. split; [congruence | apply IH; reflexivity].
Qed.

Lemma index_of_known word ws : word ∈ ws -> exists i, index_of word ws = Some i.
Proof.
  intros Hin. destruct (index_of word ws) as [i|] eqn:E; [eauto|].
  apply index_of_None in E. contradiction.
Qed.

(** Two words with the same id are the same word. *)
Lemma index_of_inj w1 w2 ws i :
  index_of w1 ws = Some i -> index_of w2 ws = Some i -> w1 = w2.
Proof.
  intros H1 H2. apply index_of_Some in H1, H2. congruence.
Qed.

(** In a vocabulary without repetition the id of the i-th word is i. *)
Lemma index_of_lookup ws i w :
  NoDup ws -> ws !! i = Some w -> index_of w ws = Some i.
Proof.
  intros Hnd Hi.
  destruct (index_of_known w ws) as [j Hj].
  { eapply list_elem_of_lookup_2, Hi. }
  pose proof (index_of_Some _ _ _ Hj) as Hj'.
  rewrite (NoDup_lookup ws i j w Hnd Hi Hj'). exact Hj.
Qed.

Lemma get_word_id_known v word i :
  index_of word (vocab_words v) = Some i -> get_word_id v word = Ok i.
Proof. unfold get_word_id. intros ->. reflexivity. Qed.

Lemma get_word_id_unknown v word :
  word ∉ vocab_words v -> get_word_id v word = Raise (not_in_vocabulary word).
Proof. unfold get_word_id. intros H. apply index_of_None in H. rewrite H. reflexivity. Qed.

(** ** Running computations *)

Lemma bind_ok {A B} (m : M A) (k : A -> M B) self a self' :
  m self = (Ok a, self') -> bind m k self = k a self'.
Proof. unfold bind. intros ->. reflexivity. Qed.

Lemma bind_raise {A B} (m : M A) (k : A -> M B) self e self' :
  m self = (Raise e, self') -> bind m k self = (Raise e, self').
Proof. unfold bind. intros ->. reflexivity. Qed.

Lemma count_V_at_ok index self c k :
  count_V self = Some c -> c !! index = Some k ->
  count_V_at index self = (Ok k, self).
Proof.
  intros Hc Hk. unfold count_V_at, bind, the_count_V. rewrite Hc, Hk. reflexivity.
Qed.

Lemma count_V_incr_ok index self c :
  count_V self = Some c -> index < length c ->
  count_V_incr index self = (Ok tt, set_count_V (Some (bump index c)) self).
Proof.
  intros Hc Hlt. destruct (lookup_lt_is_Some_2 c index Hlt) as [k Hk].
  unfold count_V_incr.
  rewrite (bind_ok _ _ _ _ _ (count_V_at_ok _ _ _ _ Hc Hk)).
  unfold bind, the_count_V, modify, bump. rewrite Hc, Hk. reflexivity.
Qed.

(** ** The counting loop *)

Lemma bump_length i c : length (bump i c) = length c.
Proof. unfold bump. destruct (c !! i); [apply length_insert | reflexivity]. Qed.

Lemma bump_lookup_eq i c : bump i c !! i = S <$> c !! i.
Proof.
  unfold bump. destruct (c !! i) as [k|] eqn:E; simpl.
  - apply list_lookup_insert_eq. eapply lookup_lt_Some, E.
  - exact E.
Qed.

Lemma bump_lookup_ne i j c : i <> j -> bump i c !! j = c !! j.
Proof.
  intros Hne. unfold bump. destruct (c !! i); [|reflexivity].
  apply list_lookup_insert_ne. exact Hne.
Qed.

Lemma sum_list_bump i c : i < length c -> sum_list (bump i c) = S (sum_list c).
Proof.
  revert i. induction c as [|k c IH]; intros i Hi; simpl in Hi; [lia|].
  destruct i as [|i].
  - reflexivity.
  - assert (Hi' : i < length c) by lia.
    specialize (IH i Hi'). unfold bump in *. simpl.
    destruct (c !! i) as [k'|] eqn:E.
    + simpl in *. lia.
    + apply lookup_ge_None in E. lia.
Qed.

Lemma tally_length ws L : forall c, length (tally ws L c) = length c.
Proof.
  induction L as [|w L IH]; intros c; simpl; [reflexivity|].
  destruct (index_of w ws); [|reflexivity].
  rewrite IH. apply bump_length.
Qed.

Lemma tally_sum ws L :
  Forall (fun w => w ∈ ws) L ->
  forall c, length c = length ws ->
  sum_list (tally ws L c) = sum_list c + length L.
Proof.
  induction 1 as [|w L Hw _ IH]; intros c Hlen; simpl; [lia|].
  destruct (index_of_known _ _ Hw) as [i Hi]. rewrite Hi.
  rewrite IH by (rewrite bump_length; exact Hlen).
  rewrite sum_list_bump; [lia|].
  rewrite Hlen. eapply index_of_lt, Hi.
Qed.

(** The entry at the id of [word] grows by the occurrences of [word]. *)
Lemma tally_lookup ws word i L :
  index_of word ws = Some i ->
  Forall (fun w => w ∈ ws) L ->
  forall c, tally ws L c !! i = (fun k => k + occurrences word L) <$> c !! i.
Proof.
  intros Hi. induction 1 as [|w L Hw _ IH]; intros c; simpl.
  - destruct (c !! i); simpl; [f_equal; lia | reflexivity].
  - destruct (index_of_known _ _ Hw) as [j Hj]. rewrite Hj, IH.
    destruct (String.eqb_spec w word) as [->|Hne].
    + assert (j = i) as -> by congruence.
      rewrite bump_lookup_eq. destruct (c !! i); simpl; [f_equal; lia | reflexivity].
    + rewrite bump_lookup_ne.
      * destruct (c !! i); simpl; [f_equal | reflexivity].
      * intros ->. apply Hne. eapply index_of_inj; eassumption.
Qed.

Lemma counts_of_length v L : length (counts_of v L) = size v.
Proof. unfold counts_of. rewrite tally_length. apply length_replicate. Qed.

Lemma counts_of_sum v L : all_known v L -> sum_list (counts_of v L) = length L.
Proof.
  intros H. unfold counts_of.
  rewrite tally_sum; [|exact H|apply length_replicate].
  rewrite sum_list_replicate. lia.
Qed.

Lemma counts_of_lookup v L word i :
  all_known v L -> index_of word (vocab_words v) = Some i ->
  counts_of v L !! i = Some (occurrences word L).
Proof.
  intros HL Hi. unfold counts_of.
  rewrite (tally_lookup _ _ _ _ Hi HL).
  rewrite lookup_replicate_2 by (eapply index_of_lt, Hi). reflexivity.
Qed.

Lemma count_loop_ok L : forall self c,
  count_V self = Some c -> length c = size (vocab self) ->
  all_known (vocab self) L ->
  for_each L (fun word =>
      index <- vocab_get_word_id word ;;
      count_V_incr index) self
  = (Ok tt, set_count_V (Some (tally (vocab_words (vocab self)) L c)) self).
Proof.
  induction L as [|w L IH]; intros self c Hc Hlen HL; simpl.
  - unfold ret. f_equal. destruct self; simpl in *. rewrite Hc. reflexivity.
  - apply Forall_cons in HL as [Hw HL].
    destruct (index_of_known _ _ Hw) as [i Hi]. rewrite Hi.
    assert (Hlt : i < length c).
    { rewrite Hlen. eapply index_of_lt, Hi. }
    erewrite bind_ok; cycle 1.
    { erewrite bind_ok; cycle 1.
      - unfold vocab_get_word_id, lift. rewrite (get_word_id_known _ _ _ Hi). reflexivity.
      - apply count_V_incr_ok; eassumption. }
    rewrite (IH _ (bump i c)); try assumption.
    + reflexivity.
    + reflexivity.
    + simpl. rewrite bump_length. exact Hlen.
Qed.

Lemma unseen_loop_ok c : forall self,
  for_each c (fun prob =>
      if Nat.eqb prob 0
      then unseen_count_incr
      else ret tt) self
  = (Ok tt, set_unseen_count (unseen_count self + count_zeros c) self).
Proof.
  induction c as [|k c IH]; intros self; simpl.
  - unfold ret. f_equal. destruct self; unfold set_unseen_count; simpl.
    f_equal. lia.
  - destruct (Nat.eqb k 0).
    + erewrite bind_ok by reflexivity. rewrite IH.
      f_equal. destruct self; unfold set_unseen_count; simpl. f_equal. lia.
    + erewrite bind_ok by reflexivity. rewrite IH. reflexivity.
Qed.

(** [fit] only reads [vocab] from the state it starts in. *)
Lemma fit_from_init word_list self :
  fit word_list self
  = fit word_list (init (vocab self) (epsilon_unseen_proba self)).
Proof. reflexivity. Qed.

(** A [fit] on known words succeeds and leaves the closed-form state. *)
Lemma fit_known word_list self :
  all_known (vocab self) word_list ->
  fit word_list self
  = (Ok tt, fitted (vocab self) (epsilon_unseen_proba self) word_list).
Proof.
  intros HL. unfold fit.
  erewrite bind_ok by reflexivity.
  erewrite bind_ok by reflexivity.
  erewrite bind_ok by reflexivity.
  erewrite bind_ok by reflexivity.
  erewrite bind_ok by reflexivity.
  erewrite bind_ok; cycle 1.
  { apply count_loop_ok with (c := replicate (size (vocab self)) 0%nat).
    - reflexivity.
    - simpl. apply length_replicate.
    - exact HL. }
  erewrite bind_ok by reflexivity.
  simpl. rewrite unseen_loop_ok. reflexivity.
Qed.

(** A word outside the vocabulary stops the counting loop where it stands:
    the error names the word, and the counts made so far, the new
    [total_count] and the reset [unseen_count] stay in the object. *)
Example fit_unknown_word :
  fit ["dinosaur"; "UNKNOWN_unseen"; "trex"] (init dino_vocab default_epsilon)
  = (Raise (KeyError "Word UNKNOWN_unseen not in the vocabulary"),
     {| vocab := dino_vocab; epsilon_unseen_proba := default_epsilon;
        total_count := 3; unseen_count := 0;
        count_V := Some [1; 0; 0; 0]%nat |}).
Proof. reflexivity. Qed.

(** ** Evaluating [predict_proba] *)

Lemma predict_proba_eval self word i c k :
  index_of word (vocab_words (vocab self)) = Some i ->
  count_V self = Some c -> c !! i = Some k ->
  predict_proba word self
  = (Ok (proba_of (epsilon_unseen_proba self) k (total_count self) (unseen_count self)),
     self).
Proof.
  intros Hi Hc Hk. unfold predict_proba.
  erewrite bind_ok; cycle 1.
  { unfold vocab_get_word_id, lift. rewrite (get_word_id_known _ _ _ Hi). reflexivity. }
  erewrite bind_ok by (eapply count_V_at_ok; eassumption).
  erewrite bind_ok by reflexivity.
  erewrite bind_ok by reflexivity.
  erewrite bind_ok by reflexivity.
  unfold proba_of.
  destruct (Np.gtb _ _); [reflexivity|].
  destruct (Nat.ltb _ _); reflexivity.
Qed.

Lemma branch_taken_eval self word i c k :
  index_of word (vocab_words (vocab self)) = Some i ->
  count_V self = Some c -> c !! i = Some k ->
  branch_taken word self
  = (Ok (branch_of k (total_count self) (unseen_count self)), self).
Proof.
  intros Hi Hc Hk. unfold branch_taken.
  erewrite bind_ok; cycle 1.
  { unfold vocab_get_word_id, lift. rewrite (get_word_id_known _ _ _ Hi). reflexivity. }
  erewrite bind_ok by (eapply count_V_at_ok; eassumption).
  erewrite bind_ok by reflexivity.
  erewrite bind_ok by reflexivity.
  unfold branch_of.
  destruct (Np.gtb _ _); [reflexivity|].
  destruct (Nat.ltb _ _); reflexivity.
Qed.

(** [predict_proba] makes the tests of [branch_taken] and returns the
    value of the branch they select. *)
Lemma proba_of_branch epsilon k n u :
  proba_of epsilon k n u = branch_value epsilon k n u (branch_of k n u).
Proof.
  unfold proba_of, branch_of, branch_value.
  destruct (Np.gtb _ _); [reflexivity|].
  destruct (Nat.ltb _ _); reflexivity.
Qed.

Lemma predict_proba_by_branch word self :
  match branch_taken word self with
  | (Ok b, _) =>
      exists k,
        predict_proba word self
        = (Ok (branch_value (epsilon_unseen_proba self) k (total_count self)
                            (unseen_count self) b), self)
  | (Raise e, self') => predict_proba word self = (Raise e, self')
  end.
Proof.
  unfold predict_proba, branch_taken, bind, vocab_get_word_id, lift, gets, ret.
  destruct (get_word_id (vocab self) word) as [i|e]; [|reflexivity].
  destruct (count_V_at i self) as [[k|e] self'] eqn:E; [|reflexivity].
  assert (self' = self) as ->.
  { unfold count_V_at, bind, the_count_V, ret, raise in E.
    destruct (count_V self) as [c|]; [|congruence].
    destruct (c !! i); congruence. }
  unfold branch_value.
  destruct (Np.gtb _ _); [exists k; reflexivity|].
  destruct (Nat.ltb _ _); exists k; reflexivity.
Qed.

(** ** Arithmetic of the branches *)

Lemma of_nat_pos_nonzero n : 0 < n -> Qeq_bool (inject_Z (Z.of_nat n)) 0 = false.
Proof. destruct n; [lia|]. reflexivity. Qed.

Lemma div_pos_pos k n :
  0 < k -> 0 < n ->
  Np.div (Np.of_nat k) (Np.of_nat n)
  = Np.Fin (inject_Z (Z.of_nat k) / inject_Z (Z.of_nat n))%Q
  /\ Np.gtb (Np.div (Np.of_nat k) (Np.of_nat n)) (Np.of_nat 0) = true.
Proof.
  destruct k; [lia|]. destruct n; [lia|]. intros _ _. split; reflexivity.
Qed.

Lemma div_zero_pos n :
  0 < n -> Np.gtb (Np.div (Np.of_nat 0) (Np.of_nat n)) (Np.of_nat 0) = false.
Proof. destruct n; [lia|]. reflexivity. Qed.

(** [0.0 / 0] is [nan], and [nan > 0] is false. *)
Lemma div_zero_zero :
  Np.div (Np.of_nat 0) (Np.of_nat 0) = Np.NaN
  /\ Np.gtb (Np.div (Np.of_nat 0) (Np.of_nat 0)) (Np.of_nat 0) = false.
Proof. split; reflexivity. Qed.

Lemma proba_of_observed epsilon k n u :
  0 < k -> 0 < n ->
  proba_of epsilon k n u
  = Np.mul (Np.sub (Np.of_nat 1) epsilon)
           (Np.Fin (inject_Z (Z.of_nat k) / inject_Z (Z.of_nat n))%Q).
Proof.
  intros Hk Hn. unfold proba_of.
  destruct (div_pos_pos k n Hk Hn) as [Hd Hg]. rewrite Hg, Hd. reflexivity.
Qed.

Lemma proba_of_unobserved epsilon n u :
  0 < n -> 0 < u ->
  proba_of epsilon 0 n u
  = Np.mul epsilon (Np.Fin (1 / inject_Z (Z.of_nat u))%Q).
Proof.
  intros Hn Hu. unfold proba_of. rewrite (div_zero_pos n Hn).
  destruct u; [lia|]. reflexivity.
Qed.

Lemma proba_of_unfitted epsilon u :
  0 < u ->
  proba_of epsilon 0 0 u
  = Np.mul epsilon (Np.Fin (1 / inject_Z (Z.of_nat u))%Q).
Proof. intros Hu. destruct u; [lia|]. reflexivity. Qed.

(** ** Counts *)

Lemma occurrences_le word L : occurrences word L <= length L.
Proof. induction L as [|w L IH]; simpl; [lia|]. destruct (String.eqb w word); lia. Qed.

Lemma occurrences_pos_elem word L : 0 < occurrences word L -> word ∈ L.
Proof.
  induction L as [|w L IH]; simpl; [lia|].
  destruct (String.eqb_spec w word) as [->|Hne]; intros H.
  - apply list_elem_of_here.
  - apply list_elem_of_further, IH. lia.
Qed.

Lemma count_zeros_lookup c i : c !! i = Some 0%nat -> 0 < count_zeros c.
Proof.
  revert i. induction c as [|k c IH]; intros i; [discriminate|].
  destruct i as [|i]; simpl.
  - intros [= ->]. simpl. lia.
  - intros H. specialize (IH i H). lia.
Qed.

Lemma count_zeros_replicate n : count_zeros (replicate n 0%nat) = n.
Proof. induction n as [|n IH]; simpl; [reflexivity|]. rewrite IH. reflexivity. Qed.

Lemma count_zeros_filter c : count_zeros c = length (filter (fun k => k = 0%nat) c).
Proof.
  induction c as [|k c IH]; [reflexivity|].
  rewrite filter_cons. destruct (decide (k = 0%nat)) as [->|Hne]; simpl.
  - rewrite IH. reflexivity.
  - destruct k; [congruence|]. exact IH.
Qed.

Lemma all_known_elem v L word : all_known v L -> word ∈ L -> word ∈ vocab_words v.
Proof. unfold all_known. rewrite Forall_forall. intros H. apply H. Qed.

(** ** What no method changes *)

Lemma same_config_refl self : same_config self self.
Proof. split; reflexivity. Qed.

Lemma same_config_trans s1 s2 s3 :
  same_config s1 s2 -> same_config s2 s3 -> same_config s1 s3.
Proof. unfold same_config. intros [-> ->] [-> ->]. split; reflexivity. Qed.

Lemma for_each_same_config {A} (xs : list A) (body : A -> M unit) :
  (forall x self, same_config self (state_after (body x) self)) ->
  forall self, same_config self (state_after (for_each xs body) self).
Proof.
  intros Hbody. induction xs as [|x xs IH]; intros self.
  - apply same_config_refl.
  - unfold state_after in *. simpl. unfold bind.
    specialize (Hbody x self). destruct (body x self) as [[[]|e] s]; simpl in *.
    + eapply same_config_trans; [exact Hbody | apply IH].
    + exact Hbody.
Qed.

Lemma count_V_incr_same_config index self :
  same_config self (state_after (count_V_incr index) self).
Proof.
  unfold state_after, count_V_incr, count_V_at, bind, the_count_V, modify, ret, raise.
  destruct (count_V self) as [c|] eqn:Hc; simpl; [|apply same_config_refl].
  destruct (c !! index); simpl; [rewrite Hc; simpl|]; split; reflexivity.
Qed.

Lemma fit_same_config word_list self :
  same_config self (state_after (fit word_list) self).
Proof.
  unfold state_after, fit.
  do 5 (erewrite bind_ok by reflexivity).
  set (s0 := set_total_count _ _).
  assert (H0 : same_config self s0) by (split; reflexivity).
  unfold bind at 1.
  match goal with |- context [for_each word_list ?body s0] =>
    pose proof (for_each_same_config word_list body) as H1 end.
  lapply H1; [clear H1; intros H1 | ].
  2:{ intros w s. unfold state_after, bind, vocab_get_word_id, lift.
      destruct (get_word_id (vocab s) w); simpl; [|apply same_config_refl].
      apply count_V_incr_same_config. }
  specialize (H1 s0). unfold state_after in H1.
  destruct (for_each word_list _ s0) as [[[]|e] s1]; simpl in *.
  2:{ exact (same_config_trans _ _ _ H0 H1). }
  unfold bind, the_count_V.
  destruct (count_V s1) as [c|]; simpl.
  2:{ exact (same_config_trans _ _ _ H0 H1). }
  match goal with |- context [for_each c ?body s1] =>
    pose proof (for_each_same_config c body) as H2 end.
  lapply H2; [clear H2; intros H2 | ].
  2:{ intros k s. unfold state_after. destruct (Nat.eqb k 0); simpl.
      - split; reflexivity.
      - apply same_config_refl. }
  specialize (H2 s1). unfold state_after in H2.
  exact (same_config_trans _ _ _ (same_config_trans _ _ _ H0 H1) H2).
Qed.

(** ** Construction and [fit] *)

(** C10.  Construction performs no validation: for every vocabulary and
    every value of epsilon, finite or not and inside (0, 1) or not, [init]
    returns an estimator that stores both unchanged, with [total_count] and
    [unseen_count] zero and [count_V] absent. *)
Theorem init_stores_arguments (v : Vocabulary) (epsilon : Np.float) :
  vocab (init v epsilon) = v
  /\ epsilon_unseen_proba (init v epsilon) = epsilon
  /\ total_count (init v epsilon) = 0%nat
  /\ unseen_count (init v epsilon) = 0%nat
  /\ count_V (init v epsilon) = None.
Proof. repeat split. Qed.

Example init_epsilon_out_of_range :
  epsilon_unseen_proba (init dino_vocab (Np.Fin 2%Q)) = Np.Fin 2%Q
  /\ epsilon_unseen_proba (init dino_vocab (Np.Fin (-1)%Q)) = Np.Fin (-1)%Q
  /\ epsilon_unseen_proba (init dino_vocab Np.NaN) = Np.NaN.
Proof. repeat split. Qed.

(** C5.  A second [fit] replaces the fitted state: [fit L1] followed by
    [fit L2] ends with the same outcome and the same state, [count_V],
    [total_count] and [unseen_count] included, as [fit L2] alone on a fresh
    estimator.  It holds for all word lists, known to the vocabulary or not. *)
Theorem fit_replaces_prior_fit (v : Vocabulary) (epsilon : Np.float)
    (L1 L2 : list string) :
  fit L2 (state_after (fit L1) (init v epsilon)) = fit L2 (init v epsilon).
Proof.
  rewrite fit_from_init.
  destruct (fit_same_config L1 (init v epsilon)) as [-> ->].
  reflexivity.
Qed.

(** C4.  After a [fit] on words of the vocabulary, from any prior state:
    the call succeeds, [total_count] is the length of the list, [count_V]
    has one entry per vocabulary id and sums to [total_count], the entry of
    id [i] is the number of occurrences of the i-th vocabulary word, and
    [unseen_count] is the number of zero entries. *)
Theorem fit_postcondition (self : MLEstimator) (L : list string) :
  vocab_ok (vocab self) ->
  all_known (vocab self) L ->
  outcome (fit L) self = Ok tt
  /\ total_count (state_after (fit L) self) = length L
  /\ exists c,
       count_V (state_after (fit L) self) = Some c
       /\ length c = size (vocab self)
       /\ sum_list c = total_count (state_after (fit L) self)
       /\ (forall i w, vocab_words (vocab self) !! i = Some w ->
                       c !! i = Some (occurrences w L))
       /\ unseen_count (state_after (fit L) self)
          = length (filter (fun k => k = 0%nat) c).
Proof.
  intros Hok HL. unfold outcome, state_after. rewrite (fit_known _ _ HL). simpl.
  split; [reflexivity|]. split; [reflexivity|].
  exists (counts_of (vocab self) L).
  split; [reflexivity|].
  split; [apply counts_of_length|].
  split; [apply counts_of_sum, HL|].
  split; [|apply count_zeros_filter].
  intros i w Hi. apply counts_of_lookup; [exact HL|].
  apply index_of_lookup; assumption.
Qed.

Lemma fit_postcondition_witness :
  let self := init dino_vocab default_epsilon in
  let L := ["dinosaur"; "trex"; "dinosaur"; "stegosaurus"] in
  outcome (fit L) self = Ok tt
  /\ total_count (state_after (fit L) self) = length L
  /\ exists c,
       count_V (state_after (fit L) self) = Some c
       /\ length c = size (vocab self)
       /\ sum_list c = total_count (state_after (fit L) self)
       /\ (forall i w, vocab_words (vocab self) !! i = Some w ->
                       c !! i = Some (occurrences w L))
       /\ unseen_count (state_after (fit L) self)
          = length (filter (fun k => k = 0%nat) c).
Proof.
  intros self L. apply (fit_postcondition self L).
  - unfold vocab_ok. simpl. compute_done.
  - unfold all_known. simpl. compute_done.
Defined.

(** ** [predict_proba] on a fitted estimator *)

Section Fitted.

Variables (self : MLEstimator) (L : list string).
Hypothesis HL : all_known (vocab self) L.

Lemma fit_state :
  state_after (fit L) self
  = fitted (vocab self) (epsilon_unseen_proba self) L.
Proof. unfold state_after. rewrite (fit_known _ _ HL). reflexivity. Qed.

Lemma unseen_count_fitted :
  unseen_count (state_after (fit L) self) = count_zeros (counts_of (vocab self) L).
Proof. rewrite fit_state. reflexivity. Qed.

Section Word.

Variable word : string.
Hypothesis Hw : word ∈ vocab_words (vocab self).

Lemma count_V_fitted :
  exists i,
    index_of word (vocab_words (vocab self)) = Some i
    /\ counts_of (vocab self) L !! i = Some (occurrences word L).
Proof.
  destruct (index_of_known _ _ Hw) as [i Hi].
  exists i. split; [exact Hi|]. apply counts_of_lookup; assumption.
Qed.

Lemma predict_proba_fitted :
  predict_proba word (state_after (fit L) self)
  = (Ok (proba_of (epsilon_unseen_proba self) (occurrences word L) (length L)
                  (count_zeros (counts_of (vocab self) L))),
     state_after (fit L) self).
Proof.
  rewrite fit_state. destruct count_V_fitted as [i [Hi Hc]].
  exact (predict_proba_eval (fitted _ _ _) word i _ _ Hi eq_refl Hc).
Qed.

Lemma branch_taken_fitted :
  branch_taken word (state_after (fit L) self)
  = (Ok (branch_of (occurrences word L) (length L)
                   (count_zeros (counts_of (vocab self) L))),
     state_after (fit L) self).
Proof.
  rewrite fit_state. destruct count_V_fitted as [i [Hi Hc]].
  exact (branch_taken_eval (fitted _ _ _) word i _ _ Hi eq_refl Hc).
Qed.

(** A vocabulary word that the training list lacks is counted as unseen. *)
Lemma unseen_count_pos :
  occurrences word L = 0%nat -> 0 < unseen_count (state_after (fit L) self).
Proof.
  intros H0. rewrite unseen_count_fitted.
  destruct count_V_fitted as [i [_ Hc]].
  apply (count_zeros_lookup _ i). rewrite Hc, H0. reflexivity.
Qed.

End Word.
End Fitted.

(** C7.  On a word that is not in the vocabulary [predict_proba] raises the
    lookup error naming the word, whatever the state of the estimator:
    never fitted, fitted on any list, or any other value of the fields.
    The lookup is the first statement of the method, and the state is left
    as it was. *)
Theorem predict_proba_unknown_word (self : MLEstimator) (word : string) :
  word ∉ vocab_words (vocab self) ->
  predict_proba word self
  = (Raise (KeyError ("Word " ++ word ++ " not in the vocabulary")), self).
Proof.
  intros H. unfold predict_proba.
  erewrite bind_raise; [reflexivity|].
  unfold vocab_get_word_id, lift. rewrite (get_word_id_unknown _ _ H). reflexivity.
Qed.

Lemma predict_proba_unknown_word_witness :
  predict_proba "UNKNOWN_unseen" dino_mle
  = (Raise (KeyError "Word UNKNOWN_unseen not in the vocabulary"), dino_mle).
Proof.
  apply (predict_proba_unknown_word dino_mle "UNKNOWN_unseen").
  compute_done.
Defined.

(** C2.  A word observed k > 0 times in a training list of length n gets
    the probability (1 - epsilon) * k / n. *)
Theorem predict_proba_observed (self : MLEstimator) (L : list string)
    (word : string) (e : Q) :
  epsilon_unseen_proba self = Np.Fin e ->
  all_known (vocab self) L ->
  0 < occurrences word L ->
  exists p : Q,
    outcome (predict_proba word) (state_after (fit L) self) = Ok (Np.Fin p)
    /\ (p == (1 - e) * inject_Z (Z.of_nat (occurrences word L))
              / inject_Z (Z.of_nat (length L)))%Q.
Proof.
  intros He HL Hk.
  assert (Hw : word ∈ vocab_words (vocab self)).
  { eapply all_known_elem; [exact HL|]. apply occurrences_pos_elem, Hk. }
  assert (Hn : 0 < length L).
  { pose proof (occurrences_le word L). lia. }
  unfold outcome. rewrite (predict_proba_fitted _ _ HL _ Hw). simpl.
  rewrite (proba_of_observed _ _ _ _ Hk Hn), He. simpl.
  eexists. split; [reflexivity|].
  unfold Qdiv. ring.
Qed.

Lemma predict_proba_observed_witness :
  exists p : Q,
    outcome (predict_proba "dinosaur")
      (state_after (fit ["dinosaur"; "trex"; "dinosaur"; "stegosaurus"])
                   (init dino_vocab (Np.Fin (1 # 10)%Q)))
    = Ok (Np.Fin p)
    /\ (p == (1 - (1 # 10)) * inject_Z (Z.of_nat 2) / inject_Z (Z.of_nat 4))%Q.
Proof.
  apply (predict_proba_observed (init dino_vocab (Np.Fin (1 # 10)%Q))
           ["dinosaur"; "trex"; "dinosaur"; "stegosaurus"] "dinosaur" (1 # 10)%Q).
  - reflexivity.
  - unfold all_known. simpl. compute_done.
  - simpl. lia.
Defined.

(** C3.  A vocabulary word observed 0 times, after a fit on a non-empty
    list, gets epsilon * (1 / u) where u = unseen_count, and u > 0. *)
Theorem predict_proba_unobserved (self : MLEstimator) (L : list string)
    (word : string) (e : Q) :
  epsilon_unseen_proba self = Np.Fin e ->
  all_known (vocab self) L ->
  0 < length L ->
  word ∈ vocab_words (vocab self) ->
  occurrences word L = 0%nat ->
  0 < unseen_count (state_after (fit L) self)
  /\ exists p : Q,
       outcome (predict_proba word) (state_after (fit L) self) = Ok (Np.Fin p)
       /\ (p == e * (1 / inject_Z (Z.of_nat (unseen_count (state_after (fit L) self)))))%Q.
Proof.
  intros He HL Hn Hw H0.
  pose proof (unseen_count_pos _ _ HL _ Hw H0) as Hu.
  split; [exact Hu|].
  unfold outcome. rewrite (predict_proba_fitted _ _ HL _ Hw). simpl.
  rewrite (unseen_count_fitted _ _ HL) in *.
  rewrite H0, (proba_of_unobserved _ _ _ Hn Hu), He. simpl.
  eexists. split; reflexivity.
Qed.

Lemma predict_proba_unobserved_witness :
  let est := state_after (fit ["dinosaur"; "trex"; "dinosaur"; "stegosaurus"])
                         (init dino_vocab (Np.Fin (1 # 10)%Q)) in
  0 < unseen_count est
  /\ exists p : Q,
       outcome (predict_proba "known_unseen") est = Ok (Np.Fin p)
       /\ (p == (1 # 10) * (1 / inject_Z (Z.of_nat (unseen_count est))))%Q.
Proof.
  apply (predict_proba_unobserved (init dino_vocab (Np.Fin (1 # 10)%Q))
           ["dinosaur"; "trex"; "dinosaur"; "stegosaurus"] "known_unseen" (1 # 10)%Q).
  - reflexivity.
  - unfold all_known. simpl. compute_done.
  - simpl. lia.
  - simpl. compute_done.
  - reflexivity.
Defined.

(** C9.  After a fit on a non-empty list of vocabulary words, the final
    [else] of [predict_proba] is not reached for any vocabulary word: when
    the test [ml > 0] fails the count of the word is zero, so the word is
    one of the unseen ones and [unseen_count >= 1]; the branch taken is the
    first or the second. *)
Theorem fallback_branch_unreachable (self : MLEstimator) (L : list string)
    (word : string) :
  all_known (vocab self) L ->
  0 < length L ->
  word ∈ vocab_words (vocab self) ->
  (Np.gtb (Np.div (Np.of_nat (occurrences word L)) (Np.of_nat (length L)))
          (Np.of_nat 0) = false ->
   occurrences word L = 0%nat
   /\ 1 <= unseen_count (state_after (fit L) self))
  /\ exists b : branch,
       outcome (branch_taken word) (state_after (fit L) self) = Ok b
       /\ b <> Fallback
       /\ outcome (predict_proba word) (state_after (fit L) self)
          = Ok (branch_value (epsilon_unseen_proba self) (occurrences word L)
                             (length L) (unseen_count (state_after (fit L) self)) b).
Proof.
  intros HL Hn Hw.
  assert (Hml : Np.gtb (Np.div (Np.of_nat (occurrences word L)) (Np.of_nat (length L)))
                       (Np.of_nat 0) = false ->
                occurrences word L = 0%nat).
  { intros Hg. destruct (occurrences word L) as [|k] eqn:Hk; [reflexivity|].
    destruct (div_pos_pos (S k) (length L)) as [_ Hg']; [lia | exact Hn |].
    congruence. }
  split.
  - intros Hg. specialize (Hml Hg). split; [exact Hml|].
    apply (unseen_count_pos _ _ HL _ Hw Hml).
  - unfold outcome.
    rewrite (branch_taken_fitted _ _ HL _ Hw), (predict_proba_fitted _ _ HL _ Hw).
    rewrite (unseen_count_fitted _ _ HL), proba_of_branch. simpl.
    eexists. split; [reflexivity|]. split; [|reflexivity].
    unfold branch_of.
    destruct (Np.gtb _ _) eqn:Hg; [discriminate|].
    specialize (Hml eq_refl).
    pose proof (unseen_count_pos _ _ HL _ Hw Hml) as Hu.
    rewrite (unseen_count_fitted _ _ HL) in Hu.
    apply Nat.ltb_lt in Hu. rewrite Hu. discriminate.
Qed.

Lemma fallback_branch_unreachable_witness :
  let L := ["dinosaur"; "trex"; "dinosaur"; "stegosaurus"] in
  let self := init dino_vocab (Np.Fin (1 # 10)%Q) in
  (Np.gtb (Np.div (Np.of_nat (occurrences "known_unseen" L)) (Np.of_nat (length L)))
          (Np.of_nat 0) = false ->
   occurrences "known_unseen" L = 0%nat
   /\ 1 <= unseen_count (state_after (fit L) self))
  /\ exists b : branch,
       outcome (branch_taken "known_unseen") (state_after (fit L) self) = Ok b
       /\ b <> Fallback
       /\ outcome (predict_proba "known_unseen") (state_after (fit L) self)
          = Ok (branch_value (epsilon_unseen_proba self)
                             (occurrences "known_unseen" L) (length L)
                             (unseen_count (state_after (fit L) self)) b).
Proof.
  intros L self. apply (fallback_branch_unreachable self L "known_unseen").
  - unfold all_known. simpl. compute_done.
  - simpl. lia.
  - simpl. compute_done.
Defined.

(** The fallback is a live branch of the method all the same: a state that
    no [fit] produces reaches it. *)
Example fallback_branch_reachable_without_fit :
  outcome (branch_taken "dinosaur")
    {| vocab := dino_vocab; epsilon_unseen_proba := default_epsilon;
       total_count := 4; unseen_count := 0; count_V := Some [0; 2; 1; 1]%nat |}
  = Ok Fallback.
Proof. reflexivity. Qed.

(** ** [predict_proba] after a fit on the empty list *)

(** C8, as the code has it.  After [fit([])], on any estimator,
    [total_count] is 0 and [unseen_count] is the vocabulary size V; for a
    vocabulary word the quotient [count_V[index] / total_count] is the numpy
    division [0.0 / 0], which is [nan] and raises nothing, the test
    [ml > 0] is false, and [predict_proba] returns epsilon * (1 / V),
    leaving the state as it was. *)
Theorem predict_proba_after_empty_fit (self : MLEstimator) (word : string) :
  word ∈ vocab_words (vocab self) ->
  total_count (state_after (fit []) self) = 0%nat
  /\ unseen_count (state_after (fit []) self) = size (vocab self)
  /\ Np.div (Np.of_nat 0) (Np.of_nat (total_count (state_after (fit []) self)))
     = Np.NaN
  /\ predict_proba word (state_after (fit []) self)
     = (Ok (Np.mul (epsilon_unseen_proba self)
                   (Np.Fin (1 / inject_Z (Z.of_nat (size (vocab self))))%Q)),
        state_after (fit []) self).
Proof.
  intros Hw.
  assert (HL : all_known (vocab self) []) by apply Forall_nil_2.
  assert (HV : 0 < size (vocab self)).
  { unfold size. destruct (vocab_words (vocab self)); simpl; [|lia].
    apply elem_of_nil in Hw. contradiction. }
  assert (Hu : unseen_count (state_after (fit []) self) = size (vocab self)).
  { rewrite (unseen_count_fitted _ _ HL). apply count_zeros_replicate. }
  assert (Hn : total_count (state_after (fit []) self) = 0%nat).
  { unfold state_after. rewrite (fit_known _ _ HL). reflexivity. }
  split; [exact Hn|]. split; [exact Hu|].
  split; [rewrite Hn; reflexivity|].
  rewrite (predict_proba_fitted _ _ HL _ Hw).
  rewrite <- (unseen_count_fitted _ _ HL), Hu. simpl.
  rewrite (proba_of_unfitted _ _ HV). reflexivity.
Qed.

Lemma predict_proba_after_empty_fit_witness :
  let self := init dino_vocab (Np.Fin (1 # 10)%Q) in
  total_count (state_after (fit []) self) = 0%nat
  /\ unseen_count (state_after (fit []) self) = size (vocab self)
  /\ Np.div (Np.of_nat 0) (Np.of_nat (total_count (state_after (fit []) self)))
     = Np.NaN
  /\ predict_proba "trex" (state_after (fit []) self)
     = (Ok (Np.mul (epsilon_unseen_proba self)
                   (Np.Fin (1 / inject_Z (Z.of_nat (size (vocab self))))%Q)),
        state_after (fit []) self).
Proof.
  intros self. apply (predict_proba_after_empty_fit self "trex").
  simpl. compute_done.
Defined.

(** C8, as stated, fails: after [fit([])] on the docstring vocabulary with
    epsilon = 0.1, [predict_proba('dinosaur')] raises nothing and returns
    0.1 * (1 / 4). *)
Lemma predict_proba_after_empty_fit_returns :
  let est := state_after (fit []) (init dino_vocab (Np.Fin (1 # 10)%Q)) in
  total_count est = 0%nat
  /\ outcome (predict_proba "dinosaur") est = Ok (Np.Fin ((1 # 10) * (1 / 4))%Q)
  /\ ~ (exists e : exn, outcome (predict_proba "dinosaur") est = Raise e).
Proof.
  intros est. split; [reflexivity|]. split; [reflexivity|].
  intros [e He]. vm_compute in He. discriminate He.
Qed.

(** Before any [fit] the array is absent and subscripting it raises. *)
Example predict_proba_before_fit :
  outcome (predict_proba "dinosaur") (init dino_vocab default_epsilon)
  = Raise TypeError.
Proof. reflexivity. Qed.

(** ** Total probability mass *)

(** C1 fails on the code when every vocabulary word was observed: nothing
    receives the reserved mass, and the probabilities sum to 1 - epsilon.
    Docstring vocabulary, trained on all five words of the docstring list,
    epsilon = 0.1: [unseen_count = 0] and the sum is 0.9. *)
Theorem proba_mass_all_observed :
  let est := state_after (fit dino_words) (init dino_vocab (Np.Fin (1 # 10)%Q)) in
  outcome (fit dino_words) (init dino_vocab (Np.Fin (1 # 10)%Q)) = Ok tt
  /\ total_count est = 5%nat
  /\ unseen_count est = 0%nat
  /\ exists q : Q,
       outcome proba_mass est = Ok (Np.Fin q)
       /\ (q == 9 # 10)%Q /\ ~ (q == 1)%Q.
Proof.
  intros est. split; [reflexivity|]. split; [reflexivity|]. split; [reflexivity|].
  eexists. split; [vm_compute; reflexivity|].
  split; [reflexivity | discriminate].
Qed.

(** *** Arithmetic of the probabilities *)

Lemma inject_nat_pos n : 0 < n -> (0 < inject_Z (Z.of_nat n))%Q.
Proof. intros H. unfold Qlt. simpl. lia. Qed.

Lemma inject_nat_succ n :
  (inject_Z (Z.of_nat (S n)) == inject_Z (Z.of_nat n) + 1)%Q.
Proof. rewrite Nat2Z.inj_succ. unfold Z.succ. rewrite inject_Z_plus. reflexivity. Qed.

Lemma inject_nat_add a b :
  (inject_Z (Z.of_nat (a + b)) == inject_Z (Z.of_nat a) + inject_Z (Z.of_nat b))%Q.
Proof. rewrite Nat2Z.inj_add, inject_Z_plus. reflexivity. Qed.

Lemma ratio_bounds k n :
  k <= n -> 0 < n ->
  (0 <= inject_Z (Z.of_nat k) / inject_Z (Z.of_nat n) <= 1)%Q.
Proof.
  intros Hk Hn. pose proof (inject_nat_pos n Hn) as Hp. split.
  - apply Qle_shift_div_l; [exact Hp|].
    rewrite Qmult_0_l. unfold Qle. simpl. lia.
  - apply Qle_shift_div_r; [exact Hp|].
    rewrite Qmult_1_l. rewrite <- Zle_Qle. lia.
Qed.

Lemma ratio_pos k n :
  0 < k -> 0 < n -> (0 < inject_Z (Z.of_nat k) / inject_Z (Z.of_nat n))%Q.
Proof.
  intros Hk Hn. apply Qlt_shift_div_l; [apply inject_nat_pos, Hn|].
  rewrite Qmult_0_l. apply inject_nat_pos, Hk.
Qed.

Lemma inv_nat_bounds u :
  0 < u ->
  (0 < 1 / inject_Z (Z.of_nat u))%Q /\ (1 / inject_Z (Z.of_nat u) <= 1)%Q.
Proof.
  intros Hu. apply (ratio_pos 1 u) in Hu as Hp; [|lia].
  split; [exact Hp|]. apply (ratio_bounds 1 u); lia.
Qed.

Lemma proba_of_mass_term e k n u :
  0 < n -> proba_of (Np.Fin e) k n u = Np.Fin (mass_term e n u k).
Proof.
  intros Hn. destruct k as [|k].
  - unfold proba_of. rewrite (div_zero_pos n Hn). simpl.
    destruct u; reflexivity.
  - rewrite proba_of_observed by lia. reflexivity.
Qed.

Lemma mass_term_bounds e n u k :
  (0 <= e)%Q -> (e <= 1)%Q -> 0 < n -> k <= n ->
  (0 <= mass_term e n u k)%Q /\ (mass_term e n u k <= 1)%Q.
Proof.
  intros H0 H1 Hn Hk. unfold mass_term. destruct k as [|k].
  - destruct (Nat.ltb_spec 0 u) as [Hu|Hu].
    + destruct (inv_nat_bounds u Hu) as [Ha Hb].
      set (x := (1 / inject_Z (Z.of_nat u))%Q) in *. split; Lqa.nra.
    + split; Lqa.lra.
  - destruct (ratio_bounds (S k) n Hk Hn) as [Ha Hb].
    set (x := (inject_Z (Z.of_nat (S k)) / inject_Z (Z.of_nat n))%Q) in *.
    split; Lqa.nra.
Qed.

(** Summing the terms of an array of counts: the observed entries carry
    (1 - e) * sum / n, the zero entries e * zeros / u. *)
Lemma Qsum_mass_terms e n u c :
  (Qsum (mass_term e n u <$> c)
   == (1 - e) * (inject_Z (Z.of_nat (sum_list c)) / inject_Z (Z.of_nat n))
      + (if Nat.ltb 0 u
         then e * (inject_Z (Z.of_nat (count_zeros c)) / inject_Z (Z.of_nat u))
         else 0))%Q.
Proof.
  induction c as [|k c IH].
  - simpl. destruct (Nat.ltb 0 u); unfold Qdiv; ring.
  - rewrite fmap_cons. unfold Qsum in *. simpl foldr. rewrite IH. clear IH.
    destruct k as [|k].
    + change (sum_list (0%nat :: c)) with (sum_list c).
      change (count_zeros (0%nat :: c)) with (S (count_zeros c)).
      unfold mass_term. destruct (Nat.ltb 0 u).
      * rewrite inject_nat_succ. unfold Qdiv. ring.
      * ring.
    + change (sum_list (S k :: c)) with (S k + sum_list c)%nat.
      change (count_zeros (S k :: c)) with (count_zeros c).
      unfold mass_term. rewrite (inject_nat_add (S k)).
      destruct (Nat.ltb 0 u); unfold Qdiv; ring.
Qed.

(** In a vocabulary without repetition, the occurrences of the words in
    vocabulary order are the array of counts. *)
Lemma counts_of_occurrences v L :
  vocab_ok v -> all_known v L ->
  (fun w => occurrences w L) <$> vocab_words v = counts_of v L.
Proof.
  intros Hok HL. apply list_eq. intros i. rewrite list_lookup_fmap.
  destruct (vocab_words v !! i) as [w|] eqn:Hi; simpl.
  - symmetry. apply counts_of_lookup; [exact HL|].
    apply index_of_lookup; assumption.
  - symmetry. apply lookup_ge_None. rewrite counts_of_length.
    apply lookup_ge_None in Hi. exact Hi.
Qed.

Lemma sum_proba_fitted self L e ws :
  epsilon_unseen_proba self = Np.Fin e ->
  all_known (vocab self) L -> 0 < length L ->
  Forall (fun w => w ∈ vocab_words (vocab self)) ws ->
  forall a : Q,
  exists q : Q,
    sum_proba ws (Np.Fin a) (state_after (fit L) self)
    = (Ok (Np.Fin q), state_after (fit L) self)
    /\ (q == a + Qsum (mass_term e (length L)
                         (unseen_count (state_after (fit L) self))
                       <$> ((fun w => occurrences w L) <$> ws)))%Q.
Proof.
  intros He HL Hn. induction 1 as [|w ws Hw _ IH]; intros a; simpl.
  - exists a. split; [reflexivity|]. ring.
  - erewrite bind_ok by (apply predict_proba_fitted; assumption).
    rewrite He, (proba_of_mass_term _ _ _ _ Hn). simpl.
    destruct (IH (a + mass_term e (length L)
                        (count_zeros (counts_of (vocab self) L))
                        (occurrences w L))%Q) as [q [Hq Heq]].
    exists q. split; [exact Hq|].
    rewrite Heq, (unseen_count_fitted _ _ HL). symmetry. apply Qplus_assoc.
Qed.

(** X13.  After a fit on a non-empty list of vocabulary words, the
    probability of every vocabulary word lies in [0, 1] when epsilon does. *)
Theorem predict_proba_unit_interval (self : MLEstimator) (L : list string)
    (word : string) (e : Q) :
  epsilon_unseen_proba self = Np.Fin e -> (0 <= e)%Q -> (e <= 1)%Q ->
  all_known (vocab self) L -> 0 < length L ->
  word ∈ vocab_words (vocab self) ->
  exists p : Q,
    outcome (predict_proba word) (state_after (fit L) self) = Ok (Np.Fin p)
    /\ (0 <= p)%Q /\ (p <= 1)%Q.
Proof.
  intros He H0 H1 HL Hn Hw. unfold outcome.
  rewrite (predict_proba_fitted _ _ HL _ Hw), He, (proba_of_mass_term _ _ _ _ Hn).
  eexists. split; [reflexivity|].
  apply mass_term_bounds; try assumption. apply occurrences_le.
Qed.

(** X14.  The two values of the total mass over a vocabulary without
    repetition, after a fit on a non-empty list of its words: 1 when some
    vocabulary word is unseen, 1 - epsilon when none is. *)
Theorem proba_mass_fitted (self : MLEstimator) (L : list string) (e : Q) :
  vocab_ok (vocab self) ->
  epsilon_unseen_proba self = Np.Fin e ->
  all_known (vocab self) L -> 0 < length L ->
  exists q : Q,
    outcome proba_mass (state_after (fit L) self) = Ok (Np.Fin q)
    /\ (q == if Nat.ltb 0 (unseen_count (state_after (fit L) self))
             then 1 else 1 - e)%Q.
Proof.
  intros Hok He HL Hn. unfold outcome, proba_mass.
  assert (Hv : vocab (state_after (fit L) self) = vocab self).
  { apply fit_same_config. }
  rewrite Hv.
  destruct (sum_proba_fitted self L e (vocab_words (vocab self)) He HL Hn) with (a := 0%Q)
    as [q [Hq Heq]].
  { apply Forall_forall. auto. }
  change (Np.of_nat 0) with (Np.Fin 0%Q). rewrite Hq. simpl.
  exists q. split; [reflexivity|].
  rewrite Heq, (counts_of_occurrences _ _ Hok HL), Qsum_mass_terms.
  rewrite (counts_of_sum _ _ HL), (unseen_count_fitted _ _ HL).
  pose proof (inject_nat_pos _ Hn) as Hnp.
  destruct (Nat.ltb_spec 0 (count_zeros (counts_of (vocab self) L))) as [Hu|Hu].
  - pose proof (inject_nat_pos _ Hu) as Hup. field. split; Lqa.lra.
  - field. Lqa.lra.
Qed.

(** ** [score] *)

Lemma ln_nonpos (x : R) : (0 < x)%R -> (x <= 1)%R -> (ln x <= 0)%R.
Proof.
  intros Hpos [Hlt | ->].
  - left. rewrite <- ln_1. apply ln_increasing; assumption.
  - right. apply ln_1.
Qed.

Lemma log_of_pos (q : Q) : (0 < q)%Q -> Np.log (Np.Fin q) = Np.Fin (ln (Q2R q)).
Proof.
  intros Hq. unfold Np.log, Np.Qpos_b.
  destruct (Qle_bool q 0) eqn:E; [|reflexivity].
  apply Qle_bool_iff in E. exfalso. apply (Qlt_not_le _ _ Hq E).
Qed.

Lemma ln_Q_nonpos (q : Q) : (0 < q)%Q -> (q <= 1)%Q -> (ln (Q2R q) <= 0)%R.
Proof.
  intros H0 H1. apply ln_nonpos.
  - rewrite <- RMicromega.Q2R_0. apply Qlt_Rlt, H0.
  - rewrite <- RMicromega.Q2R_1. apply Qle_Rle, H1.
Qed.

(** Outside the data model the bound is lost: with epsilon = 0 an unseen
    word has probability 0 and the score is [-inf]. *)
Example score_epsilon_zero :
  outcome (score ["known_unseen"])
    (state_after (fit ["dinosaur"; "trex"; "dinosaur"; "stegosaurus"])
                 (init dino_vocab (Np.Fin 0%Q)))
  = Ok Np.NInf.
Proof. reflexivity. Qed.

(** [score] of the empty list divides the Python float [0.0] by [0]. *)
Example score_empty_list :
  outcome (score []) dino_mle = Raise ZeroDivisionError.
Proof. reflexivity. Qed.

(** ** Rounded probabilities *)

(** The two values of the class docstring come out the same in binary64. *)
Example dino_b64 :
  let epsilon := (1 / 10)%float in
  let est := state_after (fit ["dinosaur"; "trex"; "dinosaur"; "stegosaurus"])
                         (init dino_vocab (b64_value epsilon)) in
  outcome (predict_proba_b64 epsilon "dinosaur") est = Ok (45 / 100)%float
  /\ outcome (predict_proba_b64 epsilon "known_unseen") est = Ok (1 / 10)%float.
Proof. split; reflexivity. Qed.

(** C6.  The range (-inf, 0] fails on the code when a probability
    underflows.  Docstring vocabulary, [fit(['dinosaur', 'trex'])], epsilon
    the smallest positive double 5e-324, which lies in (0, 1): two
    vocabulary words are unseen, [epsilon * (1 / 2)] rounds to 0.0, so
    [predict_proba('known_unseen')] returns 0.0 and
    [score(['known_unseen'])] is [-inf]. *)
Theorem score_b64_underflow :
  let epsilon := b64_min_positive in
  let est := state_after (fit ["dinosaur"; "trex"])
                         (init dino_vocab (b64_value epsilon)) in
  (0 <? epsilon)%float = true /\ (epsilon <? 1)%float = true
  /\ outcome (fit ["dinosaur"; "trex"]) (init dino_vocab (b64_value epsilon))
     = Ok tt
  /\ total_count est = 2%nat
  /\ unseen_count est = 2%nat
  /\ outcome (predict_proba_b64 epsilon "known_unseen") est = Ok 0%float
  /\ outcome (score_b64 epsilon ["known_unseen"]) est = Ok Np.NInf.
Proof.
  intros epsilon est.
  split; [reflexivity|]. split; [reflexivity|]. split; [reflexivity|].
  split; [reflexivity|]. split; [reflexivity|].
  split; vm_compute; reflexivity.
Qed.

(** * Further properties of the methods *)

(** ** [fit] on a list with an unknown word *)

Lemma first_unknown v L :
  ~ all_known v L ->
  exists pre bad post,
    L = (pre ++ bad :: post)%list /\ all_known v pre /\ bad ∉ vocab_words v.
Proof.
  induction L as [|w L IH]; intros Hn.
  - exfalso. apply Hn. apply Forall_nil_2.
  - destruct (decide (w ∈ vocab_words v)) as [Hw|Hw].
    + destruct IH as [pre [bad [post [-> [Hpre Hbad]]]]].
      { intros HL. apply Hn. apply Forall_cons_2; assumption. }
      exists (w :: pre), bad, post. split; [reflexivity|].
      split; [apply Forall_cons_2; assumption | exact Hbad].
    + exists [], w, L. split; [reflexivity|].
      split; [apply Forall_nil_2 | exact Hw].
Qed.

Lemma count_loop_raise pre bad post : forall self c,
  count_V self = Some c -> length c = size (vocab self) ->
  all_known (vocab self) pre -> bad ∉ vocab_words (vocab self) ->
  for_each (pre ++ bad :: post)%list (fun word =>
      index <- vocab_get_word_id word ;;
      count_V_incr index) self
  = (Raise (not_in_vocabulary bad),
     set_count_V (Some (tally (vocab_words (vocab self)) pre c)) self).
Proof.
  induction pre as [|w pre IH]; intros self c Hc Hlen Hpre Hbad; simpl.
  - erewrite bind_raise; cycle 1.
    { erewrite bind_raise; [reflexivity|].
      unfold vocab_get_word_id, lift.
      rewrite (get_word_id_unknown _ _ Hbad). reflexivity. }
    f_equal. destruct self; simpl in *. rewrite Hc. reflexivity.
  - apply Forall_cons in Hpre as [Hw Hpre].
    destruct (index_of_known _ _ Hw) as [i Hi]. rewrite Hi.
    assert (Hlt : i < length c).
    { rewrite Hlen. eapply index_of_lt, Hi. }
    erewrite bind_ok; cycle 1.
    { erewrite bind_ok; cycle 1.
      - unfold vocab_get_word_id, lift.
        rewrite (get_word_id_known _ _ _ Hi). reflexivity.
      - apply count_V_incr_ok; eassumption. }
    rewrite (IH _ (bump i c)); try assumption.
    + reflexivity.
    + reflexivity.
    + simpl. rewrite bump_length. exact Hlen.
Qed.

Lemma failed_fit_result self pre bad post :
  all_known (vocab self) pre ->
  bad ∉ vocab_words (vocab self) ->
  fit (pre ++ bad :: post)%list self
  = (Raise (not_in_vocabulary bad),
     {| vocab := vocab self;
        epsilon_unseen_proba := epsilon_unseen_proba self;
        total_count := length (pre ++ bad :: post)%list;
        unseen_count := 0;
        count_V := Some (counts_of (vocab self) pre) |}).
Proof.
  intros Hpre Hbad. unfold fit.
  do 5 (erewrite bind_ok by reflexivity).
  erewrite bind_raise; [reflexivity|].
  apply count_loop_raise with (c := replicate (size (vocab self)) 0%nat).
  - reflexivity.
  - simpl. apply length_replicate.
  - exact Hpre.
  - exact Hbad.
Qed.

(** X1.  When the word list holds a word that is not in the vocabulary,
    [fit] raises the lookup error naming the first such word and stops
    there: the words before it are counted, those after it are not,
    [total_count] is already the length of the whole list and
    [unseen_count] is left at 0. *)
Theorem fit_raises_at_first_unknown_word (self : MLEstimator)
    (pre post : list string) (bad : string) :
  all_known (vocab self) pre ->
  bad ∉ vocab_words (vocab self) ->
  fit (pre ++ bad :: post)%list self
  = (Raise (KeyError ("Word " ++ bad ++ " not in the vocabulary")),
     {| vocab := vocab self;
        epsilon_unseen_proba := epsilon_unseen_proba self;
        total_count := length (pre ++ bad :: post)%list;
        unseen_count := 0;
        count_V := Some (counts_of (vocab self) pre) |}).
Proof. exact (failed_fit_result self pre bad post). Qed.

Lemma fit_raises_at_first_unknown_word_witness :
  fit (["dinosaur"; "trex"] ++ "UNKNOWN_unseen" :: ["dinosaur"])%list
      (init dino_vocab default_epsilon)
  = (Raise (KeyError ("Word " ++ "UNKNOWN_unseen" ++ " not in the vocabulary")),
     {| vocab := dino_vocab;
        epsilon_unseen_proba := default_epsilon;
        total_count := length (["dinosaur"; "trex"] ++ "UNKNOWN_unseen" :: ["dinosaur"])%list;
        unseen_count := 0;
        count_V := Some (counts_of dino_vocab ["dinosaur"; "trex"]) |}).
Proof.
  apply (fit_raises_at_first_unknown_word (init dino_vocab default_epsilon)
           ["dinosaur"; "trex"] ["dinosaur"] "UNKNOWN_unseen").
  - unfold all_known. simpl. compute_done.
  - simpl. compute_done.
Defined.

(** X2.  [fit] succeeds exactly when every word of the list is in the
    vocabulary. *)
Theorem fit_succeeds_iff_all_known (self : MLEstimator) (L : list string) :
  outcome (fit L) self = Ok tt <-> all_known (vocab self) L.
Proof.
  split.
  - intros Hok.
    destruct (decide (all_known (vocab self) L)) as [HL|HL]; [exact HL|].
    destruct (first_unknown _ _ HL) as [pre [bad [post [-> [Hpre Hbad]]]]].
    unfold outcome in Hok.
    rewrite (failed_fit_result _ _ _ _ Hpre Hbad) in Hok.
    discriminate Hok.
  - intros HL. unfold outcome. rewrite (fit_known _ _ HL). reflexivity.
Qed.

(** X3.  Whatever the word list, and whether it succeeds or raises, [fit]
    leaves [vocab] and [epsilon_unseen_proba] as they were. *)
Theorem fit_keeps_vocab_and_epsilon (self : MLEstimator) (L : list string) :
  vocab (state_after (fit L) self) = vocab self
  /\ epsilon_unseen_proba (state_after (fit L) self) = epsilon_unseen_proba self.
Proof. exact (fit_same_config L self). Qed.

(** ** Unknown words *)

Lemma unknown_word_raises self word :
  word ∉ vocab_words (vocab self) ->
  predict_proba word self = (Raise (not_in_vocabulary word), self).
Proof.
  intros H. unfold predict_proba.
  erewrite bind_raise; [reflexivity|].
  unfold vocab_get_word_id, lift. rewrite (get_word_id_unknown _ _ H). reflexivity.
Qed.

(** ** What [predict_proba] and [score] leave untouched *)

Lemma count_V_at_state index self : state_after (count_V_at index) self = self.
Proof.
  unfold state_after, count_V_at, bind, the_count_V, ret, raise.
  destruct (count_V self) as [c|]; [|reflexivity].
  destruct (c !! index); reflexivity.
Qed.

(** X4.  [predict_proba] only reads the estimator: whatever the state and
    the word, and whether it returns or raises, the state after the call is
    the state before it. *)
Theorem predict_proba_reads_only (self : MLEstimator) (word : string) :
  state_after (predict_proba word) self = self.
Proof.
  unfold state_after, predict_proba, bind, vocab_get_word_id, lift, gets, ret.
  destruct (get_word_id (vocab self) word) as [i|e]; [|reflexivity].
  pose proof (count_V_at_state i self) as Hs. unfold state_after in Hs.
  destruct (count_V_at i self) as [[k|e] self']; simpl in Hs; subst self';
    [|reflexivity].
  destruct (Np.gtb _ _); [reflexivity|].
  destruct (Nat.ltb _ _); reflexivity.
Qed.

Lemma score_loop_state W : forall acc self,
  state_after (score_loop W acc) self = self.
Proof.
  induction W as [|w W IH]; intros acc self; [reflexivity|].
  unfold state_after in *. simpl. unfold bind.
  pose proof (predict_proba_reads_only self w) as Hs. unfold state_after in Hs.
  destruct (predict_proba w self) as [[p|e] self']; simpl in Hs; subst self'.
  - apply IH.
  - reflexivity.
Qed.

(** X5.  [score] only reads the estimator, on every word list (empty,
    known or not) and in every state. *)
Theorem score_reads_only (self : MLEstimator) (W : list string) :
  state_after (score W) self = self.
Proof.
  unfold state_after, score, bind.
  pose proof (score_loop_state W (Np.Fin 0%R) self) as Hs. unfold state_after in Hs.
  destruct (score_loop W (Np.Fin 0%R) self) as [[t|e] self']; simpl in Hs;
    subst self'; [|reflexivity].
  destruct (length W); reflexivity.
Qed.

(** ** Calling before any [fit] *)

(** X6.  While [count_V] is still [None], as [__init__] leaves it,
    [predict_proba] on a vocabulary word raises [TypeError] (the lookup of
    the word succeeds, the subscript of [None] does not), and so does
    [score] on any list that starts with a vocabulary word. *)
Theorem unfitted_estimator_raises_TypeError (self : MLEstimator)
    (word : string) (rest : list string) :
  count_V self = None ->
  word ∈ vocab_words (vocab self) ->
  outcome (predict_proba word) self = Raise TypeError
  /\ outcome (score (word :: rest)) self = Raise TypeError.
Proof.
  intros Hc Hw. destruct (index_of_known _ _ Hw) as [i Hi].
  assert (Hp : predict_proba word self = (Raise TypeError, self)).
  { unfold predict_proba.
    erewrite bind_ok; cycle 1.
    { unfold vocab_get_word_id, lift.
      rewrite (get_word_id_known _ _ _ Hi). reflexivity. }
    erewrite bind_raise; [reflexivity|].
    unfold count_V_at. erewrite bind_raise; [reflexivity|].
    unfold the_count_V. rewrite Hc. reflexivity. }
  split.
  - unfold outcome. rewrite Hp. reflexivity.
  - unfold outcome, score. erewrite bind_raise; [reflexivity|].
    simpl. erewrite bind_raise; [reflexivity | exact Hp].
Qed.

Lemma unfitted_estimator_raises_TypeError_witness :
  outcome (predict_proba "trex") (init dino_vocab default_epsilon) = Raise TypeError
  /\ outcome (score ("trex" :: ["dinosaur"])) (init dino_vocab default_epsilon)
     = Raise TypeError.
Proof.
  apply (unfitted_estimator_raises_TypeError (init dino_vocab default_epsilon)
           "trex" ["dinosaur"]).
  - reflexivity.
  - simpl. compute_done.
Defined.

(** ** [score] on a fitted estimator *)

Section FittedScore.

Variables (self : MLEstimator) (L : list string).
Hypothesis HL : all_known (vocab self) L.

Lemma score_loop_known W :
  all_known (vocab self) W ->
  forall acc,
    score_loop W acc (state_after (fit L) self)
    = (Ok (log_total acc (fitted_proba self L <$> W)), state_after (fit L) self).
Proof.
  induction 1 as [|w W Hw _ IH]; intros acc; [reflexivity|].
  simpl. erewrite bind_ok by (apply predict_proba_fitted; assumption).
  rewrite IH. reflexivity.
Qed.

Lemma score_loop_app pre rest :
  all_known (vocab self) pre ->
  forall acc,
    score_loop (pre ++ rest)%list acc (state_after (fit L) self)
    = score_loop rest (log_total acc (fitted_proba self L <$> pre))
                 (state_after (fit L) self).
Proof.
  induction 1 as [|w W Hw _ IH]; intros acc; [reflexivity|].
  simpl. erewrite bind_ok by (apply predict_proba_fitted; assumption).
  rewrite IH. reflexivity.
Qed.

Lemma score_known W :
  all_known (vocab self) W -> 0 < length W ->
  outcome (score W) (state_after (fit L) self)
  = Ok (Np.rdiv_len (log_total (Np.Fin 0%R) (fitted_proba self L <$> W)) (length W)).
Proof.
  intros HW Hlen. unfold outcome, score.
  erewrite bind_ok by (apply score_loop_known; exact HW).
  destruct W; [simpl in Hlen; lia | reflexivity].
Qed.

End FittedScore.

(** X7.  On an estimator fitted on vocabulary words, [score] of a list
    that holds a word outside the vocabulary raises the lookup error naming
    the first such word, whatever comes after it. *)
Theorem score_raises_at_first_unknown_word (self : MLEstimator)
    (L pre post : list string) (bad : string) :
  all_known (vocab self) L ->
  all_known (vocab self) pre ->
  bad ∉ vocab_words (vocab self) ->
  outcome (score (pre ++ bad :: post)%list) (state_after (fit L) self)
  = Raise (KeyError ("Word " ++ bad ++ " not in the vocabulary")).
Proof.
  intros HL Hpre Hbad. unfold outcome, score.
  erewrite bind_raise; [reflexivity|].
  rewrite (score_loop_app self L HL pre (bad :: post) Hpre). simpl.
  erewrite bind_raise; [reflexivity|].
  apply unknown_word_raises.
  destruct (fit_same_config L self) as [-> _]. exact Hbad.
Qed.

Lemma score_raises_at_first_unknown_word_witness :
  outcome (score (["trex"] ++ "UNKNOWN_unseen" :: ["dinosaur"])%list)
          (state_after (fit ["dinosaur"; "trex"]) (init dino_vocab default_epsilon))
  = Raise (KeyError ("Word " ++ "UNKNOWN_unseen" ++ " not in the vocabulary")).
Proof.
  apply (score_raises_at_first_unknown_word (init dino_vocab default_epsilon)
           ["dinosaur"; "trex"] ["trex"] ["dinosaur"] "UNKNOWN_unseen").
  - unfold all_known. simpl. compute_done.
  - unfold all_known. simpl. compute_done.
  - simpl. compute_done.
Defined.

(** X8.  After a [fit] on vocabulary words, [predict_proba] returns a
    value exactly on the words of the vocabulary: it raises on every other
    word and on none of them, even after a fit on the empty list. *)
Theorem predict_proba_returns_iff_known (self : MLEstimator)
    (L : list string) (word : string) :
  all_known (vocab self) L ->
  (exists p, outcome (predict_proba word) (state_after (fit L) self) = Ok p)
  <-> word ∈ vocab_words (vocab self).
Proof.
  intros HL. split.
  - intros [p Hp].
    destruct (decide (word ∈ vocab_words (vocab self))) as [Hw|Hw]; [exact Hw|].
    unfold outcome in Hp.
    rewrite unknown_word_raises in Hp; [discriminate Hp|].
    destruct (fit_same_config L self) as [-> _]. exact Hw.
  - intros Hw. eexists. unfold outcome.
    rewrite (predict_proba_fitted _ _ HL _ Hw). reflexivity.
Qed.

Lemma predict_proba_returns_iff_known_witness :
  (exists p, outcome (predict_proba "trex")
               (state_after (fit []) (init dino_vocab default_epsilon)) = Ok p)
  <-> "trex" ∈ vocab_words (vocab (init dino_vocab default_epsilon)).
Proof.
  apply (predict_proba_returns_iff_known (init dino_vocab default_epsilon) [] "trex").
  unfold all_known. simpl. compute_done.
Defined.

(** ** The array of counts *)

Lemma hits_cons ws i w L :
  hits ws i (w :: L)
  = ((if decide (index_of w ws = Some i) then 1 else 0) + hits ws i L)%nat.
Proof.
  unfold hits. rewrite filter_cons.
  destruct (decide (index_of w ws = Some i)); reflexivity.
Qed.

Lemma hits_app ws i L1 L2 :
  hits ws i (L1 ++ L2)%list = (hits ws i L1 + hits ws i L2)%nat.
Proof. unfold hits. rewrite filter_app, length_app. reflexivity. Qed.

Lemma hits_perm ws i L L' : L ≡ₚ L' -> hits ws i L = hits ws i L'.
Proof. intros H. unfold hits. rewrite H. reflexivity. Qed.

(** Every entry of the array grows by the number of words with its id. *)
Lemma tally_lookup_hits ws L :
  Forall (fun w => w ∈ ws) L ->
  forall c i, tally ws L c !! i = (fun k => k + hits ws i L)%nat <$> c !! i.
Proof.
  induction 1 as [|w L Hw _ IH]; intros c i.
  - simpl. destruct (c !! i); simpl; [f_equal; unfold hits; simpl; lia | reflexivity].
  - simpl. destruct (index_of_known _ _ Hw) as [j Hj]. rewrite Hj, IH, hits_cons.
    destruct (decide (index_of w ws = Some i)) as [Hi|Hi].
    + assert (j = i) as -> by congruence.
      rewrite bump_lookup_eq. destruct (c !! i); simpl; [f_equal; lia | reflexivity].
    + rewrite bump_lookup_ne by congruence.
      destruct (c !! i); simpl; [f_equal | reflexivity].
Qed.

Lemma counts_of_lookup_hits v L i :
  all_known v L -> i < size v -> counts_of v L !! i = Some (hits (vocab_words v) i L).
Proof.
  intros HL Hi. unfold counts_of.
  rewrite (tally_lookup_hits _ _ HL), lookup_replicate_2 by exact Hi.
  reflexivity.
Qed.

Lemma counts_of_perm v L L' :
  L ≡ₚ L' -> all_known v L -> counts_of v L = counts_of v L'.
Proof.
  intros Hp HL.
  assert (HL' : all_known v L') by (unfold all_known in *; rewrite <- Hp; exact HL).
  apply list_eq. intros i.
  destruct (decide (i < size v)) as [Hi|Hi].
  - rewrite !counts_of_lookup_hits by assumption. f_equal. apply hits_perm, Hp.
  - rewrite !lookup_ge_None_2 by (rewrite counts_of_length; lia). reflexivity.
Qed.

(** X9.  [fit] does not depend on the order of the training words: two
    lists of vocabulary words that are permutations of each other give the
    same outcome and the same fitted state. *)
Theorem fit_permutation (self : MLEstimator) (L L' : list string) :
  L ≡ₚ L' ->
  all_known (vocab self) L ->
  fit L self = fit L' self.
Proof.
  intros Hp HL.
  assert (HL' : all_known (vocab self) L')
    by (unfold all_known in *; rewrite <- Hp; exact HL).
  rewrite (fit_known _ _ HL), (fit_known _ _ HL'). unfold fitted.
  rewrite (counts_of_perm _ _ _ Hp HL), (Permutation_length Hp). reflexivity.
Qed.

Lemma fit_permutation_witness :
  fit ["dinosaur"; "trex"; "dinosaur"] (init dino_vocab default_epsilon)
  = fit ["trex"; "dinosaur"; "dinosaur"] (init dino_vocab default_epsilon).
Proof.
  apply (fit_permutation (init dino_vocab default_epsilon)
           ["dinosaur"; "trex"; "dinosaur"] ["trex"; "dinosaur"; "dinosaur"]).
  - apply perm_swap.
  - unfold all_known. simpl. compute_done.
Defined.

(** X10.  Counting is additive: the array of counts after a fit on the
    concatenation of two lists of vocabulary words is the entrywise sum of
    the arrays after a fit on each, and [total_count] is the sum of the two
    [total_count]s. *)
Theorem fit_concatenation (self : MLEstimator) (L1 L2 : list string) :
  all_known (vocab self) L1 ->
  all_known (vocab self) L2 ->
  total_count (state_after (fit (L1 ++ L2)%list) self)
  = (total_count (state_after (fit L1) self)
     + total_count (state_after (fit L2) self))%nat
  /\ exists c1 c2,
       count_V (state_after (fit L1) self) = Some c1
       /\ count_V (state_after (fit L2) self) = Some c2
       /\ count_V (state_after (fit (L1 ++ L2)%list) self)
          = Some (zip_with Nat.add c1 c2).
Proof.
  intros H1 H2.
  assert (H12 : all_known (vocab self) (L1 ++ L2)%list).
  { apply Forall_app_2; assumption. }
  rewrite !fit_state by assumption. simpl.
  split; [apply length_app|].
  exists (counts_of (vocab self) L1), (counts_of (vocab self) L2).
  split; [reflexivity|]. split; [reflexivity|]. f_equal.
  apply list_eq. intros i. rewrite lookup_zip_with.
  destruct (decide (i < size (vocab self))) as [Hi|Hi].
  - rewrite !counts_of_lookup_hits by assumption. simpl.
    rewrite hits_app. reflexivity.
  - rewrite !lookup_ge_None_2 by (rewrite counts_of_length; lia). reflexivity.
Qed.

Lemma fit_concatenation_witness :
  let self := init dino_vocab default_epsilon in
  let L1 := ["dinosaur"; "trex"] in
  let L2 := ["dinosaur"; "stegosaurus"] in
  total_count (state_after (fit (L1 ++ L2)%list) self)
  = (total_count (state_after (fit L1) self)
     + total_count (state_after (fit L2) self))%nat
  /\ exists c1 c2,
       count_V (state_after (fit L1) self) = Some c1
       /\ count_V (state_after (fit L2) self) = Some c2
       /\ count_V (state_after (fit (L1 ++ L2)%list) self)
          = Some (zip_with Nat.add c1 c2).
Proof.
  intros self L1 L2. apply (fit_concatenation self L1 L2).
  - unfold all_known. simpl. compute_done.
  - unfold all_known. simpl. compute_done.
Defined.

Lemma count_zeros_le c : count_zeros c <= length c.
Proof.
  induction c as [|k c IH]; simpl; [lia|]. destruct (Nat.eqb k 0); lia.
Qed.

Lemma count_zeros_full c : count_zeros c = length c -> sum_list c = 0%nat.
Proof.
  induction c as [|k c IH]; simpl; [reflexivity|].
  pose proof (count_zeros_le c) as Hle.
  destruct k as [|k]; simpl; intros Heq; [apply IH|]; lia.
Qed.

(** X11.  After a [fit] on vocabulary words [unseen_count] is at most the
    vocabulary size, and it is the whole vocabulary size exactly when the
    training list is empty. *)
Theorem unseen_count_bounds (self : MLEstimator) (L : list string) :
  all_known (vocab self) L ->
  unseen_count (state_after (fit L) self) <= size (vocab self)
  /\ (unseen_count (state_after (fit L) self) = size (vocab self) <-> L = []).
Proof.
  intros HL. rewrite (unseen_count_fitted _ _ HL).
  pose proof (count_zeros_le (counts_of (vocab self) L)) as Hle.
  rewrite counts_of_length in Hle. split; [exact Hle|]. split.
  - intros Heq. rewrite <- (counts_of_length (vocab self) L) in Heq.
    apply count_zeros_full in Heq. rewrite (counts_of_sum _ _ HL) in Heq.
    destruct L; [reflexivity | discriminate Heq].
  - intros ->. apply count_zeros_replicate.
Qed.

Lemma unseen_count_bounds_witness :
  unseen_count (state_after (fit ["trex"]) (init dino_vocab default_epsilon))
  <= size (vocab (init dino_vocab default_epsilon))
  /\ (unseen_count (state_after (fit ["trex"]) (init dino_vocab default_epsilon))
      = size (vocab (init dino_vocab default_epsilon)) <-> ["trex"] = []).
Proof.
  apply (unseen_count_bounds (init dino_vocab default_epsilon) ["trex"]).
  unfold all_known. simpl. compute_done.
Defined.

(** ** Probabilities of a fitted estimator *)

Lemma predict_proba_unit_interval_witness :
  exists p : Q,
    outcome (predict_proba "dinosaur")
      (state_after (fit ["dinosaur"; "trex"]) (init dino_vocab (Np.Fin 1%Q)))
    = Ok (Np.Fin p)
    /\ (0 <= p)%Q /\ (p <= 1)%Q.
Proof.
  apply (predict_proba_unit_interval (init dino_vocab (Np.Fin 1%Q))
           ["dinosaur"; "trex"] "dinosaur" 1%Q).
  - reflexivity.
  - discriminate.
  - discriminate.
  - unfold all_known. simpl. compute_done.
  - simpl. lia.
  - simpl. compute_done.
Defined.

Lemma proba_mass_fitted_witness :
  let self := init dino_vocab (Np.Fin (1 # 10)%Q) in
  let L := ["dinosaur"; "trex"; "dinosaur"; "stegosaurus"] in
  exists q : Q,
    outcome proba_mass (state_after (fit L) self) = Ok (Np.Fin q)
    /\ (q == if Nat.ltb 0 (unseen_count (state_after (fit L) self))
             then 1 else 1 - (1 # 10))%Q.
Proof.
  intros self L. apply (proba_mass_fitted self L (1 # 10)%Q).
  - unfold vocab_ok. simpl. compute_done.
  - reflexivity.
  - unfold all_known. simpl. compute_done.
  - simpl. lia.
Defined.

(** X15.  Among the words observed in training, a word that occurs at
    least as often as another gets at least its probability, for every
    epsilon up to 1. *)
Theorem predict_proba_monotone (self : MLEstimator) (L : list string)
    (w1 w2 : string) (e : Q) :
  epsilon_unseen_proba self = Np.Fin e -> (e <= 1)%Q ->
  all_known (vocab self) L ->
  0 < occurrences w1 L -> occurrences w1 L <= occurrences w2 L ->
  exists p1 p2 : Q,
    outcome (predict_proba w1) (state_after (fit L) self) = Ok (Np.Fin p1)
    /\ outcome (predict_proba w2) (state_after (fit L) self) = Ok (Np.Fin p2)
    /\ (p1 <= p2)%Q.
Proof.
  intros He H1 HL Hk1 Hk12.
  assert (Hk2 : 0 < occurrences w2 L) by lia.
  assert (Hn : 0 < length L).
  { pose proof (occurrences_le w1 L). lia. }
  assert (Hw1 : w1 ∈ vocab_words (vocab self)).
  { eapply all_known_elem; [exact HL|]. apply occurrences_pos_elem, Hk1. }
  assert (Hw2 : w2 ∈ vocab_words (vocab self)).
  { eapply all_known_elem; [exact HL|]. apply occurrences_pos_elem, Hk2. }
  unfold outcome.
  rewrite (predict_proba_fitted _ _ HL _ Hw1), (predict_proba_fitted _ _ HL _ Hw2).
  rewrite He, !(proba_of_mass_term _ _ _ _ Hn).
  eexists. eexists. split; [reflexivity|]. split; [reflexivity|].
  unfold mass_term.
  destruct (occurrences w1 L) as [|k1] eqn:E1; [lia|].
  destruct (occurrences w2 L) as [|k2] eqn:E2; [lia|].
  assert (Hx : (inject_Z (Z.of_nat (S k1)) / inject_Z (Z.of_nat (length L))
                <= inject_Z (Z.of_nat (S k2)) / inject_Z (Z.of_nat (length L)))%Q).
  { unfold Qdiv. apply Qmult_le_compat_r.
    - rewrite <- Zle_Qle. lia.
    - apply Qlt_le_weak, Qinv_lt_0_compat, inject_nat_pos, Hn. }
  set (x1 := (inject_Z (Z.of_nat (S k1)) / inject_Z (Z.of_nat (length L)))%Q) in *.
  set (x2 := (inject_Z (Z.of_nat (S k2)) / inject_Z (Z.of_nat (length L)))%Q) in *.
  Lqa.nra.
Qed.

Lemma predict_proba_monotone_witness :
  exists p1 p2 : Q,
    outcome (predict_proba "trex")
      (state_after (fit ["dinosaur"; "trex"; "dinosaur"])
                   (init dino_vocab (Np.Fin (1 # 10)%Q))) = Ok (Np.Fin p1)
    /\ outcome (predict_proba "dinosaur")
         (state_after (fit ["dinosaur"; "trex"; "dinosaur"])
                      (init dino_vocab (Np.Fin (1 # 10)%Q))) = Ok (Np.Fin p2)
    /\ (p1 <= p2)%Q.
Proof.
  apply (predict_proba_monotone (init dino_vocab (Np.Fin (1 # 10)%Q))
           ["dinosaur"; "trex"; "dinosaur"] "trex" "dinosaur" (1 # 10)%Q).
  - reflexivity.
  - discriminate.
  - unfold all_known. simpl. compute_done.
  - simpl. lia.
  - simpl. lia.
Defined.

(** ** The estimator a failed [fit] leaves behind *)

(** X16.  After a [fit] that raised on an unknown word, the estimator still
    answers: [unseen_count] is 0 and [total_count] is the length of the
    whole list, so a vocabulary word not counted before the failure takes
    the final [else] and gets probability 0, and a word counted k > 0
    times gets (1 - epsilon) * k / total_count. *)
Theorem predict_proba_after_failed_fit (self : MLEstimator)
    (pre post : list string) (bad word : string) :
  all_known (vocab self) pre ->
  bad ∉ vocab_words (vocab self) ->
  word ∈ vocab_words (vocab self) ->
  let est := state_after (fit (pre ++ bad :: post)%list) self in
  (occurrences word pre = 0%nat ->
   outcome (branch_taken word) est = Ok Fallback
   /\ outcome (predict_proba word) est = Ok (Np.of_nat 0))
  /\ (0 < occurrences word pre ->
      outcome (branch_taken word) est = Ok Observed
      /\ outcome (predict_proba word) est
         = Ok (Np.mul (Np.sub (Np.of_nat 1) (epsilon_unseen_proba self))
                      (Np.Fin (inject_Z (Z.of_nat (occurrences word pre))
                               / inject_Z (Z.of_nat (length (pre ++ bad :: post)%list)))%Q))).
Proof.
  intros Hpre Hbad Hw est. subst est. unfold state_after, outcome.
  rewrite (failed_fit_result _ _ _ _ Hpre Hbad). simpl.
  destruct (index_of_known _ _ Hw) as [i Hi].
  pose proof (counts_of_lookup _ _ _ _ Hpre Hi) as Hc.
  set (n := length (pre ++ bad :: post)%list).
  assert (Hn : 0 < n) by (unfold n; rewrite length_app; simpl; lia).
  set (st := {| vocab := vocab self;
                epsilon_unseen_proba := epsilon_unseen_proba self;
                total_count := n; unseen_count := 0;
                count_V := Some (counts_of (vocab self) pre) |}).
  rewrite (predict_proba_eval st word i _ _ Hi eq_refl Hc).
  rewrite (branch_taken_eval st word i _ _ Hi eq_refl Hc). simpl.
  split.
  - intros ->. unfold branch_of, proba_of. rewrite (div_zero_pos n Hn).
    split; reflexivity.
  - intros Hk. unfold branch_of. rewrite (proba_of_observed _ _ _ _ Hk Hn).
    destruct (div_pos_pos _ _ Hk Hn) as [_ ->]. split; reflexivity.
Qed.

Lemma predict_proba_after_failed_fit_witness :
  let est := state_after (fit (["dinosaur"] ++ "UNKNOWN_unseen" :: ["trex"])%list)
                         (init dino_vocab default_epsilon) in
  (occurrences "trex" ["dinosaur"] = 0%nat ->
   outcome (branch_taken "trex") est = Ok Fallback
   /\ outcome (predict_proba "trex") est = Ok (Np.of_nat 0))
  /\ (0 < occurrences "trex" ["dinosaur"] ->
      outcome (branch_taken "trex") est = Ok Observed
      /\ outcome (predict_proba "trex") est
         = Ok (Np.mul (Np.sub (Np.of_nat 1)
                              (epsilon_unseen_proba (init dino_vocab default_epsilon)))
                      (Np.Fin (inject_Z (Z.of_nat (occurrences "trex" ["dinosaur"]))
                               / inject_Z (Z.of_nat
                                   (length (["dinosaur"] ++ "UNKNOWN_unseen" :: ["trex"])%list)))%Q))).
Proof.
  apply (predict_proba_after_failed_fit (init dino_vocab default_epsilon)
           ["dinosaur"] ["trex"] "UNKNOWN_unseen" "trex").
  - unfold all_known. simpl. compute_done.
  - simpl. compute_done.
  - simpl. compute_done.
Defined.

(** ** The range of [score] *)

Lemma log_nonpositive (p : Q) :
  (0 <= p)%Q -> (p <= 1)%Q -> nonpositive (Np.log (Np.Fin p)).
Proof.
  intros H0 H1. unfold Np.log, Np.Qpos_b, Np.Qneg_b.
  destruct (Qle_bool p 0) eqn:Ep; simpl.
  - assert (Hn : Qle_bool 0 p = true) by (apply Qle_bool_iff; exact H0).
    rewrite Hn. simpl. exact I.
  - apply ln_Q_nonpos; [|exact H1]. apply Qnot_le_lt. intros Hle.
    apply Qle_bool_iff in Hle. congruence.
Qed.

Lemma radd_nonpositive (a b : Np.real) :
  nonpositive a -> nonpositive b -> nonpositive (Np.radd a b).
Proof. destruct a, b; simpl; try tauto. intros Ha Hb. Lra.lra. Qed.

Lemma log_total_nonpositive (ps : list Q) :
  Forall (fun p => (0 <= p)%Q /\ (p <= 1)%Q) ps ->
  forall acc, nonpositive acc -> nonpositive (log_total acc (Np.Fin <$> ps)).
Proof.
  unfold log_total. induction 1 as [|p ps [H0 H1] _ IH]; intros acc Hacc.
  - exact Hacc.
  - rewrite fmap_cons. cbn [foldl]. apply IH.
    apply radd_nonpositive; [exact Hacc | apply log_nonpositive; assumption].
Qed.

Lemma rdiv_len_nonpositive (v : Np.real) (n : nat) :
  0 < n -> nonpositive v -> nonpositive (Np.rdiv_len v n).
Proof.
  intros Hn. destruct v; simpl; try tauto. intros Hr.
  assert (Hlen : (0 < INR n)%R) by (apply lt_0_INR; lia).
  pose proof (Rinv_0_lt_compat _ Hlen) as Hinv.
  unfold Rdiv. Lra.nra.
Qed.

Lemma Forall2_fmap_known {A} (P : string -> Prop) (R : string -> A -> Prop)
    (f : string -> A) (W : list string) :
  (forall w, P w -> R w (f w)) -> Forall P W -> Forall2 R W (f <$> W).
Proof.
  intros HR. induction 1 as [|w W Hw _ IH]; [constructor|].
  rewrite fmap_cons. constructor; [apply HR, Hw | exact IH].
Qed.

(** X19.  With epsilon in [0, 1], on an estimator fitted on a non-empty
    list of vocabulary words, [score] of a non-empty list of vocabulary
    words is the total of the logarithms of the [predict_proba] values,
    each in [0, 1], divided by the length of the list; it is never [nan]
    nor [+inf]: it is [-inf] or a finite value at most 0. *)
Theorem score_nonpositive (self : MLEstimator) (L W : list string) (e : Q) :
  epsilon_unseen_proba self = Np.Fin e ->
  (0 <= e)%Q -> (e <= 1)%Q ->
  all_known (vocab self) L -> 0 < length L ->
  all_known (vocab self) W -> 0 < length W ->
  exists ps : list Q,
    Forall2 (fun w p =>
               outcome (predict_proba w) (state_after (fit L) self) = Ok (Np.Fin p))
            W ps
    /\ Forall (fun p => (0 <= p)%Q /\ (p <= 1)%Q) ps
    /\ outcome (score W) (state_after (fit L) self)
       = Ok (Np.rdiv_len (log_total (Np.Fin 0%R) (Np.Fin <$> ps)) (length W))
    /\ nonpositive
         (Np.rdiv_len (log_total (Np.Fin 0%R) (Np.Fin <$> ps)) (length W)).
Proof.
  intros He H0 H1 HL Hn HW HlW.
  set (f := fun w => mass_term e (length L)
                       (count_zeros (counts_of (vocab self) L))
                       (occurrences w L)).
  assert (Hf : forall w, fitted_proba self L w = Np.Fin (f w)).
  { intros w. unfold fitted_proba. rewrite He. apply proba_of_mass_term, Hn. }
  assert (HB : Forall (fun p => (0 <= p)%Q /\ (p <= 1)%Q) (f <$> W)).
  { apply Forall_fmap, Forall_forall. intros w _. unfold f. simpl.
    apply mass_term_bounds; try assumption. apply occurrences_le. }
  exists (f <$> W). split; [|split; [exact HB|split]].
  - apply (Forall2_fmap_known (fun w => w ∈ vocab_words (vocab self))); [|exact HW].
    intros w Hw. unfold outcome.
    rewrite (predict_proba_fitted _ _ HL _ Hw). simpl.
    f_equal. apply Hf.
  - rewrite (score_known self L HL W HW HlW). do 3 f_equal.
    rewrite <- list_fmap_compose. apply list_fmap_ext. intros i w _. apply Hf.
  - apply rdiv_len_nonpositive; [exact HlW|].
    apply log_total_nonpositive; [exact HB|]. simpl. apply Rle_refl.
Qed.

Lemma score_nonpositive_witness :
  let est := state_after (fit ["dinosaur"; "trex"; "dinosaur"; "stegosaurus"])
                         (init dino_vocab (Np.Fin (1 # 10)%Q)) in
  let W := ["trex"; "known_unseen"] in
  exists ps : list Q,
    Forall2 (fun w p => outcome (predict_proba w) est = Ok (Np.Fin p)) W ps
    /\ Forall (fun p => (0 <= p)%Q /\ (p <= 1)%Q) ps
    /\ outcome (score W) est
       = Ok (Np.rdiv_len (log_total (Np.Fin 0%R) (Np.Fin <$> ps)) (length W))
    /\ nonpositive
         (Np.rdiv_len (log_total (Np.Fin 0%R) (Np.Fin <$> ps)) (length W)).
Proof.
  intros est W.
  apply (score_nonpositive (init dino_vocab (Np.Fin (1 # 10)%Q))
           ["dinosaur"; "trex"; "dinosaur"; "stegosaurus"] W (1 # 10)%Q).
  - reflexivity.
  - discriminate.
  - discriminate.
  - unfold all_known. simpl. compute_done.
  - simpl. lia.
  - unfold all_known, W. simpl. compute_done.
  - simpl. lia.
Defined.

(** ** [score] after a fit on the empty list *)

(** X18.  After [fit([])] nothing fails in [score] either: every
    vocabulary word has the probability epsilon * (1 / V), V the vocabulary
    size, and the score of a non-empty list of n vocabulary words is the
    total of n copies of the logarithm of that value, divided by n.  It
    holds for every epsilon; the logarithm is [-inf] when the product is 0. *)
Theorem score_after_empty_fit (self : MLEstimator) (W : list string) :
  all_known (vocab self) W -> 0 < length W ->
  outcome (score W) (state_after (fit []) self)
  = Ok (Np.rdiv_len
          (log_total (Np.Fin 0%R)
             (replicate (length W)
                (Np.mul (epsilon_unseen_proba self)
                        (Np.Fin (1 / inject_Z (Z.of_nat (size (vocab self))))%Q))))
          (length W)).
Proof.
  intros HW Hlen.
  assert (HL : all_known (vocab self) []) by apply Forall_nil_2.
  assert (HV : 0 < size (vocab self)).
  { destruct W as [|w W]; [simpl in Hlen; lia|].
    apply Forall_cons in HW as [Hw _]. unfold size.
    destruct (vocab_words (vocab self)); simpl; [|lia].
    apply elem_of_nil in Hw. contradiction. }
  rewrite (score_known self [] HL W HW Hlen). do 3 f_equal.
  apply const_fmap. intros i w _. unfold fitted_proba, counts_of. simpl.
  rewrite count_zeros_replicate. apply proba_of_unfitted, HV.
Qed.

Lemma score_after_empty_fit_witness :
  let self := init dino_vocab (Np.Fin (1 # 10)%Q) in
  let W := ["trex"; "dinosaur"] in
  outcome (score W) (state_after (fit []) self)
  = Ok (Np.rdiv_len
          (log_total (Np.Fin 0%R)
             (replicate (length W)
                (Np.mul (epsilon_unseen_proba self)
                        (Np.Fin (1 / inject_Z (Z.of_nat (size (vocab self))))%Q))))
          (length W)).
Proof.
  intros self W. apply (score_after_empty_fit self W).
  - unfold all_known. simpl. compute_done.
  - simpl. lia.
Defined.
